(** * coroot: lazy time series aggregation and SLO burn-rate checks

    A shallow embedding of the aggregating iterator and of the
    [AggregatedTimeseries] series of package [timeseries], and of the
    burn-rate detector of package [model] ([AlertRules], [init],
    [CheckBurnRates]).

    Go's [float64] is Rocq's primitive binary64 [float]; [Time] and
    [Duration] are 64-bit integers carried in [Z]. *)

From Stdlib Require Import ZArith List Bool Lia Floats.
From Stdlib Require Strings.String Strings.Ascii.
Import ListNotations.
Import Ascii.AsciiSyntax.

Set Warnings "-register-all".
Local Open Scope Z_scope.

(* ================================================================== *)
(** ** Package [timeseries] *)
(* ================================================================== *)

Module timeseries.

(** Modelled from the spec: the [Time] and [Duration] types of package
    [timeseries] are not among the embedded source files.  The spec has
    them as points and signed spans of one discrete grid, totally ordered,
    with addition of a span to a point; they are taken as Go [int64] counts
    of seconds, so additions wrap around. *)
Definition Time := Z.
Definition Duration := Z.

Definition wrap64 (z : Z) : Z :=
  (z + 2 ^ 63) mod 2 ^ 64 - 2 ^ 63.

(** Modelled from the spec: the duration constants used by the rule table
    (5m, 30m, 1h, 2h, 6h, 24h, 72h). *)
Definition Minute : Duration := 60.
Definition Hour : Duration := 60 * Minute.
Definition Day : Duration := 24 * Hour.

(** Modelled from the spec: [Time.Add] and [Time.Before] ("supports
    addition/subtraction of a Duration", "comparable, totally ordered"). *)
Definition Add (t : Time) (d : Duration) : Time := wrap64 (t + d).
Definition Before (t u : Time) : bool := t <? u.

(** Unary minus on a [Duration], as in [now.Add(-r.LongWindow)]. *)
Definition neg (d : Duration) : Duration := wrap64 (- d).

(** Modelled from the spec: the missing value is IEEE not-a-number. *)
Definition NaN : float := nan.

(** [type F func(t Time, accumulator, v float64) float64] *)
Definition F : Type := Time -> float -> float -> float.

Definition Point : Type := (Time * float)%type.

(** *** Iterators

    The [Iterator] interface has [Next() bool] and [Value() (Time, float64)].
    Its implementers are the distinguished [NilIterator], the cursor of a
    leaf series and the [aggregatingIterator] of the source.  Go mutates the
    iterator in place; here [Next] returns the advanced iterator next to its
    boolean. *)

(** Modelled from the spec: the [Iterator] interface, [NilIterator]
    ("immediately reports no data") and the leaf cursor
    [leafIterator cur rest], which stands on [cur] and still has [rest] to
    yield, are not among the embedded source files.  [aggregatingIterator]
    is the struct of the source, with its fields [input] and [aggFunc]. *)
Inductive Iterator : Type :=
| NilIterator
| leafIterator (cur : Point) (rest : list Point)
| aggregatingIterator (input : list Iterator) (aggFunc : F).

(** The loop of [aggregatingIterator.Next]: inputs are advanced in order,
    and the first one that reports [false] ends the loop; the inputs after
    it are not touched. *)
Definition nextAll (next : Iterator -> bool * Iterator) :
  list Iterator -> bool * list Iterator :=
  fix go (l : list Iterator) : bool * list Iterator :=
    match l with
    | [] => (true, [])
    | iter :: l' =>
        let (ok, iter') := next iter in
        if ok then let (ok', l'') := go l' in (ok', iter' :: l'')
        else (false, iter' :: l')
    end.

Fixpoint Next (i : Iterator) : bool * Iterator :=
  match i with
  | NilIterator => (false, NilIterator)
  | leafIterator cur rest =>
      match rest with
      | [] => (false, leafIterator cur [])
      | p :: rest' => (true, leafIterator p rest')
      end
  | aggregatingIterator input aggFunc =>
      let (ok, input') := nextAll Next input in
      (ok, aggregatingIterator input' aggFunc)
  end.

(** The body of the [for _, iter := range i.input] loop of
    [aggregatingIterator.Value]: the pair [(t, acc)] after one more input
    whose current point is [p]. *)
Definition foldStep (aggFunc : F) (st : Time * float) (p : Point) : Time * float :=
  let (t, v) := p in (t, aggFunc t (snd st) v).

Fixpoint Value (i : Iterator) : Time * float :=
  match i with
  | NilIterator => (0, NaN)
  | leafIterator cur _ => cur
  | aggregatingIterator input aggFunc =>
      match input with
      | [i0; i1] =>
          let (t, v1) := Value i0 in
          let (_, v2) := Value i1 in
          (t, aggFunc t v1 v2)
      | _ =>
          fold_left (fun st iter => foldStep aggFunc st (Value iter)) input (0, NaN)
      end
  end.

(** *** Series

    The [TimeSeries] interface has [len], [last], [isEmpty], [iter] (and the
    printers).  A Go interface value may be nil: [option TimeSeries]. *)

(** Modelled from the spec: the [TimeSeries] interface and the leaf series
    are not among the embedded source files; the leaf is external,
    "consumed as a black box satisfying the Series contract".
    [LeafSeries n e d] is a leaf whose [len()] is [n], whose [isEmpty()] is
    [e] and whose [iter()] is the [NilIterator] when [d] is [None] and a
    fresh cursor over the points [pts] when [d] is [Some pts].
    [AggregatedTimeseries] is the struct of the source, with its fields
    [input] and [aggFunc]. *)
Inductive TimeSeries : Type :=
| LeafSeries (n : Z) (e : bool) (d : option (list Point))
| AggregatedTimeseries (input : list (option TimeSeries)) (aggFunc : F).

(** [AddInput], on the [input] field it updates: the series of [tss] are
    appended in order, the nil ones being passed over. *)
Definition AddInput (input tss : list (option TimeSeries)) : list (option TimeSeries) :=
  fold_left (fun input t =>
               match t with
               | None => input
               | Some _ => input ++ [t]
               end) tss input.

Fixpoint len (ts : TimeSeries) : Z :=
  match ts with
  | LeafSeries n _ _ => n
  | AggregatedTimeseries input _ =>
      (fix first (l : list (option TimeSeries)) : Z :=
         match l with
         | [] => 0
         | Some i :: _ => len i
         | None :: l' => first l'
         end) input
  end.

Definition isEmpty (ts : TimeSeries) : bool :=
  match ts with
  | LeafSeries _ e _ => e
  | AggregatedTimeseries input _ => (Z.of_nat (length input) =? 0)
  end.

Definition isNilIterator (i : Iterator) : bool :=
  match i with NilIterator => true | _ => false end.

(** The loop of [AggregatedTimeseries.iter]: the iterators of the non-nil
    inputs, in order, without those that are a [NilIterator]. *)
Definition iterInputs (iter : TimeSeries -> Iterator) :
  list (option TimeSeries) -> list Iterator :=
  fix go (l : list (option TimeSeries)) : list Iterator :=
    match l with
    | [] => []
    | None :: l' => go l'
    | Some i :: l' =>
        let iIter := iter i in
        if isNilIterator iIter then go l' else iIter :: go l'
    end.

Fixpoint iter (ts : TimeSeries) : Iterator :=
  match ts with
  | LeafSeries _ _ None => NilIterator
  | LeafSeries _ _ (Some pts) => leafIterator (0, NaN) pts
  | AggregatedTimeseries input aggFunc =>
      let its := iterInputs iter input in
      if Z.of_nat (length its) =? 0 then NilIterator
      else aggregatingIterator its aggFunc
  end.

(** Modelled from the spec: [IsEmpty] of package [timeseries] is not among
    the embedded source files; an absent (nil) series is empty, any other
    series answers with its own [isEmpty] ("a derived series is considered
    empty iff it has zero non-nil inputs"). *)
Definition IsEmpty (ts : option TimeSeries) : bool :=
  match ts with
  | None => true
  | Some t => isEmpty t
  end.

(** *** Consuming an iterator

    [for iter.Next() { t, v := iter.Value(); ... }].  The loops below carry
    fuel; [steps] counts how many times [Next] answers [true], and
    [drain_steps] and [reduceLoop_steps] show that [S (steps i)] rounds are
    always enough for an iterator made by [iter]. *)
Definition minList (l : list nat) : nat :=
  match l with
  | [] => 0%nat
  | n :: l' => fold_left Nat.min l' n
  end.

Fixpoint steps (i : Iterator) : nat :=
  match i with
  | NilIterator => 0%nat
  | leafIterator _ rest => length rest
  | aggregatingIterator input _ => minList (map steps input)
  end.

Fixpoint drain (fuel : nat) (i : Iterator) : option (list Point) :=
  match fuel with
  | O => None
  | S fuel' =>
      let (ok, i') := Next i in
      if ok then option_map (cons (Value i')) (drain fuel' i')
      else Some []
  end.

(** The points an iterator yields until it is exhausted. *)
Definition outputs (i : Iterator) : list Point :=
  match drain (S (steps i)) i with
  | Some pts => pts
  | None => []
  end.

(** The points of a series: those of a fresh iterator. *)
Definition points (ts : TimeSeries) : list Point := outputs (iter ts).

(** Modelled from the spec: [Reduce] of package [timeseries] is not among
    the embedded source files.  "Maintain one running accumulator, seeded as
    missing/not-a-number, and repeatedly apply F(t, accumulator, next_value)
    ... across time". *)
Fixpoint reduceLoop (fuel : nat) (f : F) (i : Iterator) (acc : float) : option float :=
  match fuel with
  | O => None
  | S fuel' =>
      let (ok, i') := Next i in
      if ok then let (t, v) := Value i' in reduceLoop fuel' f i' (f t acc v)
      else Some acc
  end.

Definition Reduce (f : F) (ts : TimeSeries) : float :=
  match reduceLoop (S (steps (iter ts))) f (iter ts) NaN with
  | Some acc => acc
  | None => NaN
  end.

(** Modelled from the spec: [NanSum] of package [timeseries] is not among
    the embedded source files.  "sum(acc, v) = v if acc is missing; acc if v
    is missing; else acc + v". *)
Definition NanSum (t : Time) (sum v : float) : float :=
  if is_nan sum then v
  else if is_nan v then sum
  else (sum + v)%float.

(** [AggregatedTimeseries.last] *)
Definition last (ts : TimeSeries) : float :=
  Reduce (fun (t : Time) (accumulator v : float) => v) ts.

End timeseries.

Import timeseries.

(* ================================================================== *)
(** ** Package [model]: the burn-rate detector *)
(* ================================================================== *)

Module model.

(** Modelled from the spec: the [Status] type of package [model] is not
    among the embedded source files; the severities the detector names. *)
Inductive Status : Type := UNKNOWN | OK | WARNING | CRITICAL.

Record AlertRule : Type := {
  LongWindow : Duration;
  ShortWindow : Duration;
  BurnRateThreshold : float;
  Severity : Status
}.

(** The literal [14.4] is the binary64 value nearest to it. *)
Definition AlertRules : list AlertRule :=
  [ {| LongWindow := Hour; ShortWindow := 5 * Minute;
       BurnRateThreshold := 0x1.ccccccccccccdp+3; Severity := CRITICAL |};
    {| LongWindow := 6 * Hour; ShortWindow := 30 * Minute;
       BurnRateThreshold := 6; Severity := CRITICAL |};
    {| LongWindow := Day; ShortWindow := 2 * Hour;
       BurnRateThreshold := 3; Severity := WARNING |};
    {| LongWindow := 3 * Day; ShortWindow := 6 * Hour;
       BurnRateThreshold := 1; Severity := WARNING |} ].

(** [init] either panics or leaves a value in [MaxAlertRuleWindow]. *)
Inductive Startup : Type :=
| Started (maxAlertRuleWindow : Duration)
| Panic.

Fixpoint initLoop (rules : list AlertRule) (maxAlertRuleWindow : Duration) : Startup :=
  match rules with
  | [] => Started maxAlertRuleWindow
  | r :: rules' =>
      if ShortWindow r >? LongWindow r then Panic
      else initLoop rules'
             (if LongWindow r >? maxAlertRuleWindow then LongWindow r
              else maxAlertRuleWindow)
  end.

Definition initWith (rules : list AlertRule) : Startup := initLoop rules Hour.

Definition init : Startup := initWith AlertRules.

Record BurnRate : Type := {
  BValue : float;
  Window : Duration;
  BSeverity : Status
}.

(** [BurnRate{}]: every field at its zero value ([Status] at its first
    constant; [CheckBurnRates] overwrites it before it returns). *)
Definition zeroBurnRate : BurnRate :=
  {| BValue := 0; Window := 0; BSeverity := UNKNOWN |}.

(** The closure [sumFrom] of [CheckBurnRates]. *)
Definition sumFrom (ts : TimeSeries) (from : Time) : float :=
  Reduce (fun (t : Time) (accumulator v : float) =>
            if Before t from then 0%float
            else NanSum t accumulator v) ts.

(** [sumFrom(bad, from) / sumFrom(total, from) / objective] *)
Definition burnRate (bad total : TimeSeries) (objective : float) (from : Time) : float :=
  (sumFrom bad from / sumFrom total from / objective)%float.

Definition longRatio (now : Time) (bad total : TimeSeries) (objective : float)
  (r : AlertRule) : float :=
  burnRate bad total objective (Add now (neg (LongWindow r))).

Definition shortRatio (now : Time) (bad total : TimeSeries) (objective : float)
  (r : AlertRule) : float :=
  burnRate bad total objective (Add now (neg (ShortWindow r))).

(** The [for _, r := range AlertRules] loop with what follows it. *)
Fixpoint checkRules (now : Time) (bad total : TimeSeries) (objective : float)
  (rules : list AlertRule) (first : BurnRate) : BurnRate :=
  match rules with
  | [] => {| BValue := BValue first; Window := Window first; BSeverity := OK |}
  | r :: rules' =>
      let from := Add now (neg (LongWindow r)) in
      let br := burnRate bad total objective from in
      let first :=
        if Window first =? 0
        then {| BValue := br; Window := LongWindow r; BSeverity := BSeverity first |}
        else first in
      if (br <? BurnRateThreshold r)%float
      then checkRules now bad total objective rules' first
      else
        let from := Add now (neg (ShortWindow r)) in
        let br := burnRate bad total objective from in
        if (br <? BurnRateThreshold r)%float
        then checkRules now bad total objective rules' first
        else {| BValue := br; Window := LongWindow r; BSeverity := Severity r |}
  end.

Definition CheckBurnRatesWith (rules : list AlertRule) (now : Time)
  (bad total : option TimeSeries) (objectivePercentage : float) : BurnRate :=
  if IsEmpty bad || IsEmpty total
  then {| BValue := 0; Window := 0; BSeverity := UNKNOWN |}
  else
    let objective := (1 - objectivePercentage / 100)%float in
    match bad, total with
    | Some b, Some t => checkRules now b t objective rules zeroBurnRate
    | _, _ => (* not reached: a nil series is empty *)
        {| BValue := 0; Window := 0; BSeverity := UNKNOWN |}
    end.

Definition CheckBurnRates : Time -> option TimeSeries -> option TimeSeries ->
                            float -> BurnRate :=
  CheckBurnRatesWith AlertRules.

End model.

Import model.

(* ================================================================== *)
(** ** Package [api]: the time range of a world *)
(* ================================================================== *)

Module api.

Definition maxDuration (d1 d2 : Duration) : Duration :=
  if d1 >=? d2 then d1 else d2.

Definition increaseStepForBigDurations (duration step : Duration) : Duration :=
  if duration >? 5 * 24 * Hour then maxDuration step (60 * Minute)
  else if duration >? 24 * Hour then maxDuration step (15 * Minute)
  else if duration >? 12 * Hour then maxDuration step (10 * Minute)
  else if duration >? 6 * Hour then maxDuration step (5 * Minute)
  else if duration >? 4 * Hour then maxDuration step Minute
  else step.

(** [loadWorld].  What the method asks of its collaborators comes in as
    arguments: [GetTo] is the answer of the cache client's [GetTo()],
    [RefreshInterval] is [project.Prometheus.RefreshInterval],
    [GetCheckConfigs] is the answer of the database, and [LoadWorld] is the
    constructor's [LoadWorld] for given check configurations, range and
    step.  [IsZero], [Truncate] and [Sub] are the methods of [Time] of these
    names, which are not among the embedded source files.  The result is
    the pair [(world, err)] of the Go function, [None] standing for nil. *)
Definition loadWorld {World CheckConfigs Error : Type}
  (IsZero : Time -> bool)
  (Truncate : Time -> Duration -> Time)
  (Sub : Time -> Time -> Duration)
  (GetTo : Time + Error)
  (RefreshInterval : Duration)
  (GetCheckConfigs : CheckConfigs + Error)
  (LoadWorld : CheckConfigs -> Time -> Time -> Duration -> option World * option Error)
  (from to : Time) : option World * option Error :=
  match GetTo with
  | inr err => (None, Some err)
  | inl cacheTo =>
      let step := RefreshInterval in
      let from := Truncate from step in
      let to := Truncate to step in
      if IsZero cacheTo || Before cacheTo from then (None, None)
      else
        let duration := Sub to from in
        let '(from, to) :=
          if Before cacheTo to then (Add cacheTo (neg duration), cacheTo)
          else (from, to) in
        let step := increaseStepForBigDurations duration step in
        match GetCheckConfigs with
        | inr err => (None, Some err)
        | inl checkConfigs => LoadWorld checkConfigs from to step
        end
  end.

End api.

Import api.

(* ================================================================== *)
(** ** Package [utils]: printing a value *)
(* ================================================================== *)

Module utils.

(** [FormatFloat].  [Sprintf n v] stands for [fmt.Sprintf("%.nf", v)] of
    Go's library.  The literals [0.1] and [0.01] are the binary64 values
    nearest to them. *)
Definition FormatFloat (Sprintf : nat -> float -> String.string) (v : float)
  : String.string :=
  if is_nan v then String.EmptyString
  else if (v =? 0)%float then String.String "0" String.EmptyString
  else if (1 <=? v)%float then Sprintf 0%nat v
  else if (0x1.999999999999ap-4 <=? v)%float then Sprintf 1%nat v
  else if (0x1.47ae147ae147bp-7 <=? v)%float then Sprintf 2%nat v
  else Sprintf 3%nat v.

End utils.

Import utils.

(* ================================================================== *)
(** ** Vocabulary of the statements *)
(* ================================================================== *)

(** An iterator as [iter] builds them: every [aggregatingIterator] has at
    least one input. *)
Inductive wf : Iterator -> Prop :=
| wf_Nil : wf NilIterator
| wf_leaf : forall cur rest, wf (leafIterator cur rest)
| wf_agg : forall input aggFunc,
    input <> [] -> Forall wf input -> wf (aggregatingIterator input aggFunc).

(** Induction over iterators that reaches the inputs of an aggregating one. *)
Definition Iterator_nested_ind (P : Iterator -> Prop)
  (HNil : P NilIterator)
  (Hleaf : forall cur rest, P (leafIterator cur rest))
  (Hagg : forall input aggFunc, Forall P input -> P (aggregatingIterator input aggFunc))
  : forall i, P i :=
  fix go (i : Iterator) : P i :=
    match i with
    | NilIterator => HNil
    | leafIterator cur rest => Hleaf cur rest
    | aggregatingIterator input aggFunc =>
        Hagg input aggFunc
          ((fix all (l : list Iterator) : Forall P l :=
              match l with
              | [] => Forall_nil P
              | x :: l' => Forall_cons x (go x) (all l')
              end) input)
    end.

(** What holds of a possibly-nil series when it holds of the series. *)
Definition onSome (P : TimeSeries -> Prop) (o : option TimeSeries) : Prop :=
  match o with
  | None => True
  | Some ts => P ts
  end.

Definition TimeSeries_nested_ind (P : TimeSeries -> Prop)
  (Hleaf : forall n e d, P (LeafSeries n e d))
  (Hagg : forall input aggFunc,
      Forall (onSome P) input -> P (AggregatedTimeseries input aggFunc))
  : forall ts, P ts :=
  fix go (ts : TimeSeries) : P ts :=
    match ts with
    | LeafSeries n e d => Hleaf n e d
    | AggregatedTimeseries input aggFunc =>
        Hagg input aggFunc
          ((fix all (l : list (option TimeSeries)) : Forall (onSome P) l :=
              match l with
              | [] => Forall_nil (onSome P)
              | o :: l' =>
                  Forall_cons o
                    (match o return onSome P o with
                     | None => I
                     | Some ts' => go ts'
                     end)
                    (all l')
              end) input)
    end.

(** An input that [AggregatedTimeseries.iter] keeps: not nil, and its own
    [iter] is not the [NilIterator]. *)
Definition live (o : option TimeSeries) : bool :=
  match o with
  | None => false
  | Some ts => negb (isNilIterator (iter ts))
  end.

(** The accumulator of a reduction after the points [pts]. *)
Definition foldPoints (f : F) (pts : list Point) (acc : float) : float :=
  fold_left (fun a p => f (fst p) a (snd p)) pts acc.

(** The points of a possibly-nil series. *)
Definition pointsOf (o : option TimeSeries) : list Point :=
  match o with
  | Some ts => points ts
  | None => []
  end.

(** The first points of all rows, when every row has one. *)
Fixpoint heads (rows : list (list Point)) : option (list Point) :=
  match rows with
  | [] => Some []
  | [] :: _ => None
  | (p :: _) :: rows' => option_map (cons p) (heads rows')
  end.

(** The first [n] columns of the rows read in lockstep. *)
Fixpoint columnsN (n : nat) (rows : list (list Point)) : list (list Point) :=
  match n with
  | O => []
  | S n' =>
      match heads rows with
      | Some col => col :: columnsN n' (map (@tl Point) rows)
      | None => []
      end
  end.

(** The columns of the rows, up to the end of the shortest row. *)
Definition columns (rows : list (list Point)) : list (list Point) :=
  columnsN (minList (map (@length Point) rows)) rows.

(** The two shapes of one aggregated point: the reducer applied to the two
    values of a column of two, and the fold over a column from a missing
    accumulator. *)
Definition pairValue (f : F) (p0 p1 : Point) : Point :=
  (fst p0, f (fst p0) (snd p0) (snd p1)).

Definition foldColumn (f : F) (col : list Point) : Point :=
  fold_left (foldStep f) col (0, NaN).

Definition aggPoint (f : F) (col : list Point) : Point :=
  match col with
  | [p0; p1] => pairValue f p0 p1
  | _ => foldColumn f col
  end.

(** The first non-nil series of a list, as [AggregatedTimeseries.len]
    looks for it. *)
Fixpoint firstNonNil (l : list (option TimeSeries)) : option TimeSeries :=
  match l with
  | [] => None
  | Some ts :: _ => Some ts
  | None :: l' => firstNonNil l'
  end.

(** NaN or one of the two infinities. *)
Definition nanOrInf (x : float) : bool := is_nan x || is_infinity x.

(** The rule does not trip: its long-window ratio is below its threshold, or
    its short-window ratio is. *)
Definition skipped (now : Time) (bad total : TimeSeries) (objective : float)
  (r : AlertRule) : bool :=
  (longRatio now bad total objective r <? BurnRateThreshold r)%float
  || (shortRatio now bad total objective r <? BurnRateThreshold r)%float.

(** The verdict of a rule that trips. *)
Definition verdict (now : Time) (bad total : TimeSeries) (objective : float)
  (r : AlertRule) : BurnRate :=
  {| BValue := shortRatio now bad total objective r;
     Window := LongWindow r;
     BSeverity := Severity r |}.

(** What [first] is after the rule [r] has been looked at. *)
Definition recordFirst (now : Time) (bad total : TimeSeries) (objective : float)
  (first : BurnRate) (r : AlertRule) : BurnRate :=
  if Window first =? 0
  then {| BValue := longRatio now bad total objective r;
          Window := LongWindow r;
          BSeverity := BSeverity first |}
  else first.

(** The largest [LongWindow] of the rules, and at least [m]. *)
Definition maxLongWindow (rules : list AlertRule) (m : Duration) : Duration :=
  fold_left (fun acc r => Z.max acc (LongWindow r)) rules m.

(* ================================================================== *)
(** ** Advancing iterators *)
(* ================================================================== *)

Section Advancing.

Lemma nextAll_cons (i : Iterator) (l : list Iterator) :
  nextAll Next (i :: l) =
  (if fst (Next i)
   then (fst (nextAll Next l), snd (Next i) :: snd (nextAll Next l))
   else (false, snd (Next i) :: l)).
Proof.
  simpl. destruct (Next i) as [ok i']. simpl.
  destruct ok; [destruct (nextAll Next l)|]; reflexivity.
Qed.

(** The loop answers [true] exactly when every input does. *)
Lemma nextAll_fst (l : list Iterator) :
  fst (nextAll Next l) = forallb (fun i => fst (Next i)) l.
Proof.
  induction l as [|i l IH]; [reflexivity|].
  rewrite nextAll_cons. simpl forallb.
  destruct (fst (Next i)); simpl; [exact IH | reflexivity].
Qed.

(** When the loop answers [true], every input has been advanced once. *)
Lemma nextAll_true (l : list Iterator) :
  fst (nextAll Next l) = true ->
  snd (nextAll Next l) = map (fun i => snd (Next i)) l.
Proof.
  induction l as [|i l IH]; [reflexivity|].
  rewrite nextAll_cons.
  destruct (fst (Next i)) eqn:E; simpl; [|discriminate].
  intros H. rewrite (IH H). reflexivity.
Qed.

(** When it answers [false], the inputs before the first exhausted one have
    been advanced, and the ones after it are as they were. *)
Lemma nextAll_false (l : list Iterator) :
  fst (nextAll Next l) = false ->
  exists pre i post,
    l = pre ++ i :: post /\
    forallb (fun j => fst (Next j)) pre = true /\
    fst (Next i) = false /\
    snd (nextAll Next l) = map (fun j => snd (Next j)) pre ++ snd (Next i) :: post.
Proof.
  induction l as [|i l IH]; [discriminate|].
  rewrite nextAll_cons.
  destruct (fst (Next i)) eqn:E; simpl.
  - intros H. destruct (IH H) as (pre & j & post & -> & Hpre & Hj & Hsnd).
    exists (i :: pre), j, post. simpl. rewrite E, Hpre, Hsnd. auto.
  - intros _. exists [], i, l. simpl. auto.
Qed.

Lemma Next_agg (input : list Iterator) (aggFunc : F) :
  Next (aggregatingIterator input aggFunc) =
  (fst (nextAll Next input), aggregatingIterator (snd (nextAll Next input)) aggFunc).
Proof.
  simpl. destruct (nextAll Next input); reflexivity.
Qed.

Lemma fold_min_le (l : list nat) (n : nat) :
  (fold_left Nat.min l n <= n)%nat.
Proof.
  revert n. induction l as [|m l IH]; intros n; simpl; [lia|].
  specialize (IH (Nat.min n m)). lia.
Qed.

Lemma fold_min_S (l : list nat) (n : nat) :
  fold_left Nat.min (map S l) (S n) = S (fold_left Nat.min l n).
Proof.
  revert n. induction l as [|m l IH]; intros n; simpl; [reflexivity|].
  apply IH.
Qed.

Lemma fold_min_In_0 (l : list nat) (n : nat) :
  In 0%nat l -> fold_left Nat.min l n = 0%nat.
Proof.
  revert n. induction l as [|m l IH]; intros n; simpl; [tauto|].
  intros [->|H].
  - rewrite Nat.min_0_r. pose proof (fold_min_le l 0). lia.
  - apply IH, H.
Qed.

Lemma minList_S (l : list nat) :
  l <> [] -> minList (map S l) = S (minList l).
Proof.
  destruct l as [|n l]; [congruence|]. intros _. apply fold_min_S.
Qed.

Lemma minList_In_0 (l : list nat) : In 0%nat l -> minList l = 0%nat.
Proof.
  destruct l as [|n l]; simpl; [tauto|].
  intros [->|H].
  - pose proof (fold_min_le l 0). lia.
  - apply fold_min_In_0, H.
Qed.

(** [minList] is the least element of a non-empty list. *)
Lemma minList_least (l : list nat) :
  l <> [] -> In (minList l) l /\ Forall (fun n => (minList l <= n)%nat) l.
Proof.
  destruct l as [|n l]; [congruence|]. intros _. simpl minList.
  revert n. induction l as [|m l IH]; intros n; simpl.
  - split; [auto | constructor; [lia | constructor]].
  - destruct (IH (Nat.min n m)) as [[Hin|Hin] Hall].
    + inversion Hall as [|? ? Hle Hall']; subst.
      split.
      * destruct (Nat.min_spec n m) as [[_ E]|[_ E]];
          [left | right; left]; congruence.
      * constructor; [lia|]. constructor; [lia | exact Hall'].
    + inversion Hall as [|? ? Hle Hall']; subst.
      split; [auto|].
      constructor; [lia|]. constructor; [lia | exact Hall'].
Qed.

(** A [true] from [Next] uses up one of the [steps]; a [false] means there
    were none left.  An advanced iterator is still well formed. *)
Lemma Next_steps (i : Iterator) :
  wf i ->
  wf (snd (Next i)) /\
  (if fst (Next i) then steps i = S (steps (snd (Next i))) else steps i = 0%nat).
Proof.
  induction i as [|cur rest|input aggFunc IH] using Iterator_nested_ind; intros Hwf.
  - simpl. split; [constructor | reflexivity].
  - destruct rest as [|p rest]; simpl; split; constructor.
  - inversion Hwf as [| |? ? Hne Hall]; subst.
    rewrite Next_agg. cbn [fst snd].
    assert (Hin : forall j, In j input ->
              wf (snd (Next j)) /\
              (if fst (Next j) then steps j = S (steps (snd (Next j)))
               else steps j = 0%nat)).
    { intros j Hj. rewrite Forall_forall in IH, Hall. auto. }
    destruct (fst (nextAll Next input)) eqn:E.
    + rewrite (nextAll_true _ E). rewrite nextAll_fst, forallb_forall in E.
      split.
      * constructor.
        -- destruct input; [congruence | discriminate].
        -- rewrite Forall_forall. intros j' Hj'.
           apply in_map_iff in Hj' as (j & <- & Hj). apply Hin, Hj.
      * cbn [steps]. rewrite map_map, <- minList_S.
        2:{ destruct input; [congruence | discriminate]. }
        rewrite map_map. f_equal. apply map_ext_in.
        intros j Hj. destruct (Hin j Hj) as [_ H]. rewrite (E j Hj) in H. exact H.
    + destruct (nextAll_false _ E) as (pre & j & post & -> & Hpre & Hj & ->).
      rewrite forallb_forall in Hpre.
      split.
      * constructor; [destruct pre; discriminate|].
        apply Forall_app. split.
        -- rewrite Forall_forall. intros j' Hj'.
           apply in_map_iff in Hj' as (k & <- & Hk).
           apply Hin, in_or_app; auto.
        -- constructor.
           ++ apply Hin, in_or_app. right. left. reflexivity.
           ++ rewrite Forall_forall in Hall |- *. intros k Hk.
              apply Hall, in_or_app. right. right. exact Hk.
      * cbn [steps]. apply minList_In_0, in_map_iff. exists j. split.
        -- destruct (Hin j) as [_ H]; [apply in_or_app; right; left; reflexivity|].
           rewrite Hj in H. exact H.
        -- apply in_or_app. right. left. reflexivity.
Qed.

End Advancing.

(* ================================================================== *)
(** ** Consuming iterators: the fuel is enough *)
(* ================================================================== *)

Section Consuming.

Lemma drain_S (n : nat) (i : Iterator) :
  drain (S n) i =
  if fst (Next i)
  then option_map (cons (Value (snd (Next i)))) (drain n (snd (Next i)))
  else Some [].
Proof.
  cbn [drain]. destruct (Next i) as [ok i']. reflexivity.
Qed.

Lemma reduceLoop_S (n : nat) (f : F) (i : Iterator) (acc : float) :
  reduceLoop (S n) f i acc =
  if fst (Next i)
  then reduceLoop n f (snd (Next i))
         (f (fst (Value (snd (Next i)))) acc (snd (Value (snd (Next i)))))
  else Some acc.
Proof.
  cbn [reduceLoop]. destruct (Next i) as [ok i']. cbn [fst snd].
  destruct ok; [|reflexivity]. destruct (Value i'); reflexivity.
Qed.

(** With [S (steps i)] rounds the loop reaches the [false] of [Next]. *)
Lemma drain_steps (i : Iterator) :
  wf i ->
  exists pts, drain (S (steps i)) i = Some pts /\ length pts = steps i.
Proof.
  remember (steps i) as n eqn:En. revert i En.
  induction n as [|n IH]; intros i En Hwf;
    destruct (Next_steps i Hwf) as [Hwf' Hst];
    rewrite drain_S; destruct (Next i) as [ok i']; cbn [fst snd] in *;
    destruct ok; try congruence.
  - exists []. auto.
  - destruct (IH i') as (pts & -> & Hlen); [congruence | exact Hwf' |].
    exists (Value i' :: pts). simpl. auto.
Qed.

(** More fuel changes nothing. *)
Lemma drain_more (n : nat) (i : Iterator) (pts : list Point) :
  drain n i = Some pts -> drain (S n) i = Some pts.
Proof.
  revert i pts. induction n as [|n IH]; intros i pts; [discriminate|].
  intros H. rewrite drain_S in H. rewrite (drain_S (S n)).
  destruct (fst (Next i)); [|exact H].
  destruct (drain n (snd (Next i))) as [q|] eqn:E; [|discriminate].
  rewrite (IH _ q E). exact H.
Qed.

Lemma drain_outputs (i : Iterator) :
  wf i -> drain (S (steps i)) i = Some (outputs i).
Proof.
  intros Hwf. unfold outputs.
  destruct (drain_steps i Hwf) as (pts & -> & _). reflexivity.
Qed.

Lemma outputs_length (i : Iterator) : wf i -> length (outputs i) = steps i.
Proof.
  intros Hwf. unfold outputs.
  destruct (drain_steps i Hwf) as (pts & -> & H). exact H.
Qed.

(** One round of the consuming loop. *)
Lemma outputs_Next (i : Iterator) :
  wf i ->
  outputs i =
  if fst (Next i) then Value (snd (Next i)) :: outputs (snd (Next i)) else [].
Proof.
  intros Hwf. destruct (Next_steps i Hwf) as [Hwf' Hst].
  pose proof (drain_outputs i Hwf) as H.
  rewrite drain_S in H. destruct (Next i) as [ok i']; cbn [fst snd] in *.
  destruct ok.
  - rewrite Hst in H.
    rewrite (drain_outputs i' Hwf') in H. simpl in H. congruence.
  - congruence.
Qed.

(** The reducing loop ends too, on the fold of the yielded points. *)
Lemma reduceLoop_steps (f : F) (i : Iterator) (acc : float) :
  wf i ->
  reduceLoop (S (steps i)) f i acc = Some (foldPoints f (outputs i) acc).
Proof.
  remember (steps i) as n eqn:En. revert i acc En.
  induction n as [|n IH]; intros i acc En Hwf;
    rewrite (outputs_Next i Hwf);
    destruct (Next_steps i Hwf) as [Hwf' Hst];
    rewrite reduceLoop_S; destruct (Next i) as [ok i']; cbn [fst snd] in *;
    destruct ok; try congruence; try reflexivity.
  rewrite IH; [reflexivity | congruence | exact Hwf'].
Qed.

(** [iter] on an aggregated series, by the iterator set it collects. *)
Lemma iter_agg (input : list (option TimeSeries)) (aggFunc : F) :
  iter (AggregatedTimeseries input aggFunc) =
  match iterInputs iter input with
  | [] => NilIterator
  | its => aggregatingIterator its aggFunc
  end.
Proof.
  cbn [iter]. destruct (iterInputs iter input); reflexivity.
Qed.

(** [iter] builds well-formed iterators. *)
Lemma iter_wf (ts : TimeSeries) : wf (iter ts).
Proof.
  induction ts as [n e d|input aggFunc IH] using TimeSeries_nested_ind.
  - destruct d; constructor.
  - rewrite iter_agg.
    assert (H : Forall wf (iterInputs iter input)).
    { induction IH as [|o l Ho _ IHl]; simpl; [constructor|].
      destruct o as [ts|]; [|exact IHl].
      destruct (isNilIterator (iter ts)); [exact IHl|].
      constructor; [exact Ho | exact IHl]. }
    destruct (iterInputs iter input) eqn:E; constructor; [discriminate | exact H].
Qed.

(** [Reduce] is the fold of the reducer over the points of the series,
    from a missing accumulator. *)
Lemma Reduce_foldPoints (f : F) (ts : TimeSeries) :
  reduceLoop (S (steps (iter ts))) f (iter ts) NaN = Some (Reduce f ts) /\
  Reduce f ts = foldPoints f (points ts) NaN.
Proof.
  unfold Reduce, points.
  rewrite (reduceLoop_steps f (iter ts) NaN (iter_wf ts)). auto.
Qed.

End Consuming.

(* ================================================================== *)
(** ** Facts on binary64 comparisons and divisions *)
(* ================================================================== *)

Section FloatFacts.

Local Open Scope float_scope.

Lemma SFcompare_refl_finite (s : bool) (m : positive) (e : Z) :
  SFcompare (S754_finite s m e) (S754_finite s m e) = Some Eq.
Proof.
  simpl. rewrite Z.compare_refl, Pos.compare_cont_refl.
  destruct s; reflexivity.
Qed.

Lemma is_nan_SF (x : float) : is_nan x = true <-> Prim2SF x = S754_nan.
Proof.
  unfold is_nan. rewrite eqb_spec. unfold SFeqb.
  destruct (Prim2SF x) as [s|s| |s m e].
  - simpl. split; discriminate.
  - destruct s; simpl; split; discriminate.
  - simpl. split; reflexivity.
  - rewrite SFcompare_refl_finite. simpl. split; discriminate.
Qed.

Lemma is_infinity_SF (x : float) :
  is_infinity x = true <-> exists s, Prim2SF x = S754_infinity s.
Proof.
  unfold is_infinity. rewrite eqb_spec, abs_spec. unfold SFeqb.
  change (Prim2SF infinity) with (S754_infinity false).
  destruct (Prim2SF x) as [s|s| |s m e]; simpl.
  - split; [discriminate | intros [? H]; discriminate].
  - split; [eauto | reflexivity].
  - split; [discriminate | intros [? H]; discriminate].
  - split; [discriminate | intros [? H]; discriminate].
Qed.

Lemma nanOrInf_SF (x : float) :
  nanOrInf x = true <->
  Prim2SF x = S754_nan \/ exists s, Prim2SF x = S754_infinity s.
Proof.
  unfold nanOrInf. rewrite orb_true_iff, is_nan_SF, is_infinity_SF. tauto.
Qed.

(** Dividing by a zero (of either sign) gives NaN or an infinity. *)
Lemma div_zero_nanOrInf (x y : float) :
  (y =? 0) = true -> nanOrInf (x / y) = true.
Proof.
  rewrite eqb_spec, nanOrInf_SF, div_spec. unfold SFeqb, SF64div.
  change (Prim2SF 0) with (S754_zero false).
  destruct (Prim2SF y) as [sy|sy| |sy my ey]; simpl; try discriminate.
  - intros _. destruct (Prim2SF x) as [sx|sx| |sx mx ex]; simpl; eauto.
  - destruct sy; discriminate.
  - destruct sy; discriminate.
Qed.

(** Dividing NaN or an infinity gives NaN or an infinity again. *)
Lemma nanOrInf_div (q o : float) :
  nanOrInf q = true -> nanOrInf (q / o) = true.
Proof.
  rewrite !nanOrInf_SF, div_spec. unfold SF64div.
  intros [->|[s ->]]; [left; reflexivity|].
  destruct (Prim2SF o) as [so|so| |so mo eo]; simpl; eauto.
Qed.

(** NaN is below nothing, and so is an infinity that is not below zero. *)
Lemma nanOrInf_not_below (q th : float) :
  nanOrInf q = true -> (q <? 0) = false -> (q <? th) = false.
Proof.
  rewrite nanOrInf_SF, !ltb_spec. unfold SFltb.
  change (Prim2SF 0) with (S754_zero false).
  intros [->|[s ->]]; [reflexivity|].
  destruct s; simpl; [discriminate|]. intros _.
  destruct (Prim2SF th) as [st|st| |st mt et]; simpl; try reflexivity.
  destruct st; reflexivity.
Qed.

Lemma SFcompare_antisym (a b : spec_float) :
  SFcompare b a = option_map CompOpp (SFcompare a b).
Proof.
  destruct a as [sa|sa| |sa ma ea], b as [sb|sb| |sb mb eb]; simpl;
    try reflexivity;
    try (destruct sa; reflexivity);
    try (destruct sb; reflexivity);
    try (destruct sa, sb; reflexivity).
  f_equal.
  destruct sa, sb; try reflexivity;
    rewrite (Z.compare_antisym ea eb);
    destruct (ea ?= eb)%Z; simpl; try reflexivity;
    rewrite (Pos.compare_cont_antisym ma mb Eq); simpl;
    try rewrite CompOpp_involutive; reflexivity.
Qed.

(** At least the threshold is not below it. *)
Lemma leb_not_ltb (x th : float) : (th <=? x) = true -> (x <? th) = false.
Proof.
  rewrite leb_spec, ltb_spec. unfold SFleb, SFltb.
  rewrite (SFcompare_antisym (Prim2SF th) (Prim2SF x)).
  destruct (SFcompare (Prim2SF th) (Prim2SF x)) as [[| |]|]; simpl; congruence.
Qed.

End FloatFacts.

(* ================================================================== *)
(** ** The iterator of an aggregated series *)
(* ================================================================== *)

Section IterOfAggregated.

Lemma live_filter_all (input : list (option TimeSeries)) :
  Forall (fun o => exists ts, o = Some ts /\ isNilIterator (iter ts) = false)
         (filter live input).
Proof.
  rewrite Forall_forall. intros o Ho. apply filter_In in Ho as [_ Ho].
  destruct o as [ts|]; [|discriminate]. exists ts. split; [reflexivity|].
  simpl in Ho. destruct (isNilIterator (iter ts)); [discriminate | reflexivity].
Qed.

(** The iterator set of [iter]: the iterators of the live inputs. *)
Lemma iterInputs_live (input : list (option TimeSeries)) :
  iterInputs iter input =
  flat_map (fun o => match o with Some ts => [iter ts] | None => [] end)
           (filter live input).
Proof.
  induction input as [|[ts|] l IH]; simpl; [reflexivity | | exact IH].
  destruct (isNilIterator (iter ts)); simpl; [exact IH | f_equal; exact IH].
Qed.

Lemma filter_live_idem (input : list (option TimeSeries)) :
  filter live (filter live input) = filter live input.
Proof.
  induction input as [|o l IH]; simpl; [reflexivity|].
  destruct (live o) eqn:E; simpl; [rewrite E, IH|]; auto.
Qed.

Lemma iterInputs_nil (input : list (option TimeSeries)) :
  iterInputs iter input = [] <-> forall o, In o input -> live o = false.
Proof.
  induction input as [|[ts|] l IH]; simpl.
  - tauto.
  - destruct (isNilIterator (iter ts)) eqn:E.
    + rewrite IH. split.
      * intros H o [<-|Ho]; [simpl; rewrite E; reflexivity | auto].
      * auto.
    + split; [discriminate|]. intros H.
      specialize (H (Some ts) (or_introl eq_refl)). simpl in H.
      rewrite E in H. discriminate.
  - rewrite IH. split.
    + intros H o [<-|Ho]; [reflexivity | auto].
    + auto.
Qed.

Lemma outputs_live (input : list (option TimeSeries)) :
  map outputs (iterInputs iter input) = map pointsOf (filter live input).
Proof.
  induction input as [|[ts|] l IH]; simpl; [reflexivity | | exact IH].
  destruct (isNilIterator (iter ts)); simpl; [exact IH | f_equal; exact IH].
Qed.

Lemma iterInputs_wf (input : list (option TimeSeries)) :
  Forall wf (iterInputs iter input).
Proof.
  induction input as [|[ts|] l IH]; simpl; [constructor | | exact IH].
  destruct (isNilIterator (iter ts)); [exact IH|].
  constructor; [apply iter_wf | exact IH].
Qed.

(** ** C10: NilIterator inputs are left out *)

(** C10.  [AggregatedTimeseries.iter] leaves out every input whose own
    [iter] is the [NilIterator] (and every nil input): the iterator it
    builds, and so the sequence of points it yields, is the one of the
    aggregation over the live inputs only; and it is the [NilIterator]
    itself exactly when no input is live. *)
Theorem C10_nil_iterators_omitted (input : list (option TimeSeries)) (aggFunc : F) :
  Forall (fun i => isNilIterator i = false) (iterInputs iter input) /\
  iter (AggregatedTimeseries input aggFunc) =
    iter (AggregatedTimeseries (filter live input) aggFunc) /\
  points (AggregatedTimeseries input aggFunc) =
    points (AggregatedTimeseries (filter live input) aggFunc) /\
  (iter (AggregatedTimeseries input aggFunc) = NilIterator <->
   forall o, In o input -> live o = false).
Proof.
  assert (Hsame : iterInputs iter (filter live input) = iterInputs iter input).
  { rewrite (iterInputs_live (filter live input)), filter_live_idem.
    symmetry. apply iterInputs_live. }
  assert (Heq : iter (AggregatedTimeseries input aggFunc) =
                iter (AggregatedTimeseries (filter live input) aggFunc)).
  { rewrite !iter_agg, Hsame. reflexivity. }
  split; [|split; [exact Heq | split]].
  - rewrite iterInputs_live, Forall_forall. intros i Hi.
    apply in_flat_map in Hi as (o & Ho & Hi).
    pose proof (live_filter_all input) as Hl. rewrite Forall_forall in Hl.
    destruct (Hl o Ho) as (ts & -> & Hts).
    destruct Hi as [<-|[]]. exact Hts.
  - unfold points. rewrite Heq. reflexivity.
  - rewrite iter_agg, <- iterInputs_nil.
    destruct (iterInputs iter input); split; congruence.
Qed.

End IterOfAggregated.

(* ================================================================== *)
(** ** C5: the shortest live input ends the aggregation *)
(* ================================================================== *)

Section ShortestInput.

Lemma nextAll_first_false (pre post : list Iterator) (i : Iterator) :
  forallb (fun j => fst (Next j)) pre = true ->
  fst (Next i) = false ->
  nextAll Next (pre ++ i :: post) =
  (false, map (fun j => snd (Next j)) pre ++ snd (Next i) :: post).
Proof.
  intros Hpre Hi. induction pre as [|j pre IH].
  - simpl app. simpl map. rewrite nextAll_cons, Hi. reflexivity.
  - simpl in Hpre. apply andb_true_iff in Hpre as [Hj Hpre].
    simpl app. rewrite nextAll_cons, Hj, (IH Hpre). reflexivity.
Qed.

Lemma steps_outputs (its : list Iterator) :
  Forall wf its -> map steps its = map (@length Point) (map outputs its).
Proof.
  intros H. rewrite map_map. apply map_ext_in. intros i Hi.
  rewrite Forall_forall in H. symmetry. apply outputs_length, H, Hi.
Qed.

Lemma points_length (input : list (option TimeSeries)) (aggFunc : F) :
  length (points (AggregatedTimeseries input aggFunc)) =
  minList (map (fun o => length (pointsOf o)) (filter live input)).
Proof.
  unfold points. rewrite (outputs_length _ (iter_wf _)), iter_agg.
  rewrite <- (map_map pointsOf (@length Point)), <- outputs_live.
  rewrite <- (steps_outputs _ (iterInputs_wf input)).
  destruct (iterInputs iter input); reflexivity.
Qed.

(** C5, as the code has it.  [aggregatingIterator.Next] answers [true]
    exactly when every one of its input iterators does; it stops at the
    first input that answers [false], leaving the later inputs as they
    were.  The iterator set holds the live inputs only, so the points of an
    aggregated series are as many as those of its shortest live input (none
    when no input is live): an input whose [iter] is the [NilIterator] is
    left out and does not end the output. *)
Theorem C5_shortest_live_input_wins
  (input : list (option TimeSeries)) (aggFunc : F) (its : list Iterator) :
  fst (Next (aggregatingIterator its aggFunc)) =
    forallb (fun i => fst (Next i)) its /\
  (forall pre i post,
      its = pre ++ i :: post ->
      forallb (fun j => fst (Next j)) pre = true ->
      fst (Next i) = false ->
      Next (aggregatingIterator its aggFunc) =
      (false,
       aggregatingIterator
         (map (fun j => snd (Next j)) pre ++ snd (Next i) :: post) aggFunc)) /\
  length (points (AggregatedTimeseries input aggFunc)) =
    minList (map (fun o => length (pointsOf o)) (filter live input)) /\
  (forall o, In o (filter live input) ->
     (length (points (AggregatedTimeseries input aggFunc)) <= length (pointsOf o))%nat).
Proof.
  split; [|split; [|split]].
  - rewrite Next_agg. apply nextAll_fst.
  - intros pre i post -> Hpre Hi.
    rewrite Next_agg, (nextAll_first_false pre post i Hpre Hi). reflexivity.
  - apply points_length.
  - intros o Ho. rewrite points_length.
    destruct (minList_least (map (fun o => length (pointsOf o)) (filter live input)))
      as [_ Hle].
    + destruct (filter live input); [destruct Ho | discriminate].
    + rewrite Forall_forall in Hle. apply Hle, in_map_iff. exists o. auto.
Qed.

(** C5, as stated, fails: the empty aggregated series is an input whose
    iterator is exhausted at once, yet the aggregation over it and a leaf
    of two points is not exhausted and yields two points. *)
Lemma C5_empty_input_does_not_end_output :
  let a := LeafSeries 2 false (Some [(0, 1%float); (60, 2%float)]) in
  let e := AggregatedTimeseries [] NanSum in
  let ts := AggregatedTimeseries [Some a; Some e] NanSum in
  isEmpty e = true /\
  points e = [] /\
  fst (Next (iter e)) = false /\
  fst (Next (iter ts)) = true /\
  points ts = [(0, 1%float); (60, 2%float)].
Proof.
  repeat split; vm_compute; reflexivity.
Qed.

End ShortestInput.

(* ================================================================== *)
(** ** C6: the value of an aggregated point *)
(* ================================================================== *)

Section AggregatedValues.

Variable aggFunc : F.

Lemma fold_foldStep_map (l : list Iterator) (st : Time * float) :
  fold_left (fun st iter => foldStep aggFunc st (Value iter)) l st =
  fold_left (foldStep aggFunc) (map Value l) st.
Proof.
  revert st. induction l as [|i l IH]; intros st; simpl; [reflexivity | apply IH].
Qed.

(** [aggregatingIterator.Value] on the current points of the inputs. *)
Lemma Value_agg (input : list Iterator) :
  Value (aggregatingIterator input aggFunc) = aggPoint aggFunc (map Value input).
Proof.
  destruct input as [|i0 [|i1 [|i2 l]]]; cbn [Value map aggPoint].
  - reflexivity.
  - apply fold_foldStep_map.
  - unfold pairValue. destruct (Value i0), (Value i1). reflexivity.
  - apply fold_foldStep_map.
Qed.

Lemma foldStep_snd (col : list Point) (st : Time * float) :
  snd (fold_left (foldStep aggFunc) col st) = foldPoints aggFunc col (snd st).
Proof.
  revert st. induction col as [|[t v] col IH]; intros st; [reflexivity|].
  simpl. rewrite IH. reflexivity.
Qed.

(** The value of a folded column: the left fold of the reducer from a
    missing accumulator. *)
Lemma foldColumn_snd (col : list Point) :
  snd (foldColumn aggFunc col) = foldPoints aggFunc col NaN.
Proof.
  apply foldStep_snd.
Qed.

Lemma heads_cons (l : list (Point * list Point)) :
  heads (map (fun pr => fst pr :: snd pr) l) = Some (map fst l) /\
  map (@tl Point) (map (fun pr => fst pr :: snd pr) l) = map snd l.
Proof.
  induction l as [|[p r] l [IH1 IH2]]; simpl; [auto|].
  rewrite IH1, IH2. auto.
Qed.

Lemma columnsN_length (n : nat) (rows : list (list Point)) :
  Forall (fun col => length col = length rows) (columnsN n rows).
Proof.
  revert rows. induction n as [|n IH]; intros rows; simpl; [constructor|].
  destruct (heads rows) as [col|] eqn:E; [|constructor].
  constructor.
  - clear IH. revert col E. induction rows as [|[|p r] rows IHr]; intros col E.
    + inversion E. reflexivity.
    + discriminate.
    + simpl in E. destruct (heads rows) as [c|]; [|discriminate].
      inversion E. simpl. f_equal. apply IHr. reflexivity.
  - specialize (IH (map (@tl Point) rows)). rewrite length_map in IH. exact IH.
Qed.

(** Two rows in lockstep are their [combine]. *)
Lemma columnsN_two (r0 r1 : list Point) (n : nat) :
  n = Nat.min (length r0) (length r1) ->
  columnsN n [r0; r1] = map (fun pq => [fst pq; snd pq]) (combine r0 r1).
Proof.
  revert r0 r1. induction n as [|n IH]; intros r0 r1 Hn.
  - destruct r0, r1; simpl in *; try reflexivity. discriminate.
  - destruct r0 as [|p0 r0], r1 as [|p1 r1]; simpl in Hn; try discriminate.
    simpl. f_equal. apply IH. lia.
Qed.

(** The points an aggregating iterator yields: the columns of the points
    of its inputs, each aggregated as [Value] does. *)
Lemma outputs_agg (input : list Iterator) :
  input <> [] -> Forall wf input ->
  outputs (aggregatingIterator input aggFunc) =
  map (aggPoint aggFunc) (columns (map outputs input)).
Proof.
  unfold columns. intros Hne Hwf.
  rewrite <- (steps_outputs input Hwf).
  change (minList (map steps input)) with (steps (aggregatingIterator input aggFunc)).
  remember (steps (aggregatingIterator input aggFunc)) as n eqn:En.
  revert input Hne Hwf En. induction n as [|n IH]; intros input Hne Hwf En.
  - assert (Hw : wf (aggregatingIterator input aggFunc)) by (constructor; assumption).
    rewrite (outputs_Next _ Hw).
    destruct (Next_steps _ Hw) as [_ Hst].
    destruct (fst (Next (aggregatingIterator input aggFunc))); [congruence | reflexivity].
  - assert (Hw : wf (aggregatingIterator input aggFunc)) by (constructor; assumption).
    rewrite (outputs_Next _ Hw).
    destruct (Next_steps _ Hw) as [Hw' Hst].
    rewrite Next_agg in Hw', Hst |- *. cbn [fst snd] in Hw', Hst |- *.
    destruct (fst (nextAll Next input)) eqn:E; [|congruence].
    rewrite (nextAll_true _ E) in Hw', Hst |- *.
    inversion Hw' as [| |? ? Hne' Hwf']; subst.
    rewrite Value_agg, (IH _ Hne' Hwf') by congruence.
    rewrite nextAll_fst, forallb_forall in E.
    set (l := map (fun i => (Value (snd (Next i)), outputs (snd (Next i)))) input
              : list (Point * list Point)).
    assert (Hrows : map outputs input = map (fun pr => fst pr :: snd pr) l).
    { unfold l. rewrite map_map. apply map_ext_in. intros i Hi.
      rewrite Forall_forall in Hwf. rewrite (outputs_Next i (Hwf i Hi)), (E i Hi).
      reflexivity. }
    destruct (heads_cons l) as [H1 H2].
    cbn [columnsN]. rewrite Hrows, H1, H2.
    unfold l. rewrite !map_map. reflexivity.
Qed.

End AggregatedValues.

Section AggregatedPoints.

Lemma aggPoint_fold (f : F) (col : list Point) :
  length col <> 2%nat -> aggPoint f col = foldColumn f col.
Proof.
  destruct col as [|p0 [|p1 [|p2 col]]]; simpl; intros H; try reflexivity.
  congruence.
Qed.

Lemma columns_fold (f : F) (rows : list (list Point)) :
  length rows <> 2%nat ->
  map (aggPoint f) (columns rows) = map (foldColumn f) (columns rows).
Proof.
  intros H. apply map_ext_in. intros col Hcol. apply aggPoint_fold.
  pose proof (columnsN_length (minList (map (@length Point) rows)) rows) as Hl.
  rewrite Forall_forall in Hl. rewrite (Hl col Hcol). exact H.
Qed.

Lemma columns_two (f : F) (r0 r1 : list Point) :
  map (aggPoint f) (columns [r0; r1]) =
  map (fun pq => pairValue f (fst pq) (snd pq)) (combine r0 r1).
Proof.
  unfold columns. rewrite (columnsN_two r0 r1); [|reflexivity].
  rewrite map_map. reflexivity.
Qed.

(** The points of an aggregated series, from the points of its live
    inputs. *)
Lemma points_agg (input : list (option TimeSeries)) (aggFunc : F) :
  points (AggregatedTimeseries input aggFunc) =
  map (aggPoint aggFunc) (columns (map pointsOf (filter live input))).
Proof.
  unfold points. rewrite iter_agg.
  pose proof (outputs_live input) as Hl.
  pose proof (iterInputs_wf input) as Hwf.
  destruct (iterInputs iter input) as [|i its] eqn:E.
  - simpl in Hl. symmetry in Hl. apply map_eq_nil in Hl. rewrite Hl. reflexivity.
  - rewrite outputs_agg; [|discriminate | exact Hwf]. rewrite Hl. reflexivity.
Qed.

(** C6.  With exactly two inputs, [aggregatingIterator.Value] applies the
    reducer to the time and value of the first input and the value of the
    second, and no accumulator is involved; with any other number of inputs
    it folds the reducer over the inputs' current points, left to right,
    from a missing accumulator.  So the points of an aggregated series with
    exactly two live inputs [a] and [b] are [F(t, a(t), b(t))] step by
    step, and with any other number of live inputs each point is the fold
    of the reducer over the column of the inputs' points at that step. *)
Theorem C6_aggregated_values (input : list (option TimeSeries)) (aggFunc : F) :
  (forall i0 i1,
      Value (aggregatingIterator [i0; i1] aggFunc) =
      pairValue aggFunc (Value i0) (Value i1)) /\
  (forall its,
      length its <> 2%nat ->
      Value (aggregatingIterator its aggFunc) = foldColumn aggFunc (map Value its)) /\
  (forall col, snd (foldColumn aggFunc col) = foldPoints aggFunc col NaN) /\
  points (AggregatedTimeseries input aggFunc) =
    match filter live input with
    | [Some a; Some b] =>
        map (fun pq => pairValue aggFunc (fst pq) (snd pq))
            (combine (points a) (points b))
    | l => map (foldColumn aggFunc) (columns (map pointsOf l))
    end.
Proof.
  split; [|split; [|split]].
  - intros i0 i1. apply (Value_agg aggFunc [i0; i1]).
  - intros its Hlen. rewrite Value_agg. apply aggPoint_fold.
    rewrite length_map. exact Hlen.
  - apply foldColumn_snd.
  - rewrite points_agg.
    pose proof (live_filter_all input) as Hall.
    destruct (filter live input) as [|o0 [|o1 [|o2 l]]].
    + apply columns_fold. discriminate.
    + destruct o0; apply columns_fold; discriminate.
    + inversion Hall as [|? ? (a & -> & _) Hall']; subst.
      inversion Hall' as [|? ? (b & -> & _) _]; subst.
      apply columns_two.
    + destruct o0 as [a|]; [destruct o1 as [b|]|];
        apply columns_fold; simpl; rewrite ?length_map; discriminate.
Qed.

End AggregatedPoints.

(* ================================================================== *)
(** ** C7: the length of an aggregated series *)
(* ================================================================== *)

Section Length.

Lemma len_agg (input : list (option TimeSeries)) (aggFunc : F) :
  len (AggregatedTimeseries input aggFunc) =
  match firstNonNil input with
  | Some ts => len ts
  | None => 0
  end.
Proof.
  induction input as [|[ts|] l IH]; [reflexivity | reflexivity | exact IH].
Qed.

(** C7, as the code has it.  [AggregatedTimeseries.len] is the [len] of the
    first non-nil input and 0 when there is none; for a series built from
    two inputs [a] and [b] it is the [len] of [a], which is the shorter of
    the two lengths when [a] is not the longer one. *)
Theorem C7_len_is_first_input
  (a b : TimeSeries) (input : list (option TimeSeries)) (aggFunc : F) :
  len (AggregatedTimeseries [Some a; Some b] aggFunc) = len a /\
  (len a <= len b ->
   len (AggregatedTimeseries [Some a; Some b] aggFunc) = Z.min (len a) (len b)) /\
  len (AggregatedTimeseries input aggFunc) =
    match firstNonNil input with
    | Some ts => len ts
    | None => 0
    end /\
  len (AggregatedTimeseries [] aggFunc) = 0.
Proof.
  split; [reflexivity|]. split; [|split; [apply len_agg | reflexivity]].
  intros H. cbn [len]. lia.
Qed.

(** C7, as stated, fails: a series of length 2 aggregated with one of
    length 1 has [len] 2, not the shorter length 1. *)
Lemma C7_len_not_shorter_input :
  let a := LeafSeries 2 false (Some [(0, 1%float); (60, 2%float)]) in
  let b := LeafSeries 1 false (Some [(0, 1%float)]) in
  len a = 2 /\ len b = 1 /\
  len (AggregatedTimeseries [Some a; Some b] NanSum) = 2 /\
  len (AggregatedTimeseries [Some a; Some b] NanSum) <> Z.min (len a) (len b).
Proof.
  repeat split. discriminate.
Qed.

End Length.

(* ================================================================== *)
(** ** C8: the last value *)
(* ================================================================== *)

Section LastValue.

Lemma last_cons_default (p : Point) (pts : list Point) (d d' : Point) :
  List.last (p :: pts) d = List.last (p :: pts) d'.
Proof.
  revert p. induction pts as [|q pts IH]; intros p; [reflexivity|].
  change (List.last (q :: pts) d = List.last (q :: pts) d'). apply IH.
Qed.

Lemma foldPoints_last (pts : list Point) (t0 : Time) (acc : float) :
  foldPoints (fun (t : Time) (accumulator v : float) => v) pts acc =
  snd (List.last pts (t0, acc)).
Proof.
  revert acc. induction pts as [|p pts IH]; intros acc; [reflexivity|].
  unfold foldPoints in *. cbn [fold_left]. rewrite IH.
  destruct pts as [|q pts]; [reflexivity|].
  rewrite (last_cons_default q pts (t0, snd p) (t0, acc)). reflexivity.
Qed.

(** C8, as the code has it.  [AggregatedTimeseries.last] returns the value
    of the last point the series yields, present or missing (and a missing
    value when the series yields no point): a trailing missing point is
    what it returns. *)
Theorem C8_last_is_final_point (input : list (option TimeSeries)) (aggFunc : F) :
  last (AggregatedTimeseries input aggFunc) =
  snd (List.last (points (AggregatedTimeseries input aggFunc)) (0, NaN)).
Proof.
  unfold last.
  destruct (Reduce_foldPoints (fun (t : Time) (accumulator v : float) => v)
              (AggregatedTimeseries input aggFunc)) as [_ ->].
  apply foldPoints_last.
Qed.

(** C8, as stated, fails: the series below has the present value 1 followed
    by a missing point, and its last value is missing. *)
Lemma C8_trailing_missing_replaces :
  let ts := AggregatedTimeseries
              [Some (LeafSeries 2 false (Some [(0, 1%float); (60, NaN)]))] NanSum in
  points ts = [(0, 1%float); (60, NaN)] /\
  is_nan 1%float = false /\
  is_nan (last ts) = true.
Proof.
  repeat split; vm_compute; reflexivity.
Qed.

End LastValue.

(* ================================================================== *)
(** ** C9: the rule table at startup *)
(* ================================================================== *)

Section Startup.

Lemma initLoop_ok (rules : list AlertRule) (m : Duration) :
  Forall (fun r => ShortWindow r <= LongWindow r) rules ->
  initLoop rules m = Started (maxLongWindow rules m).
Proof.
  revert m. induction rules as [|r rules IH]; intros m H; [reflexivity|].
  inversion H as [|? ? Hr Hrules]; subst. cbn [initLoop maxLongWindow fold_left].
  destruct (ShortWindow r >? LongWindow r) eqn:E; [lia|].
  rewrite (IH _ Hrules). unfold maxLongWindow. do 2 f_equal.
  destruct (LongWindow r >? m) eqn:E'; lia.
Qed.

Lemma initLoop_panic (rules : list AlertRule) (m : Duration) :
  initLoop rules m = Panic <->
  Exists (fun r => ShortWindow r > LongWindow r) rules.
Proof.
  revert m. induction rules as [|r rules IH]; intros m; cbn [initLoop].
  - split; [discriminate | intros H; inversion H].
  - destruct (ShortWindow r >? LongWindow r) eqn:E.
    + split; [|reflexivity]. intros _. left. lia.
    + rewrite IH. split.
      * intros H. right. exact H.
      * intros H. inversion H as [? ? Hr|? ? Hr]; subst; [lia | exact Hr].
Qed.

Lemma maxLongWindow_ge (rules : list AlertRule) (m : Duration) :
  m <= maxLongWindow rules m /\
  Forall (fun r => LongWindow r <= maxLongWindow rules m) rules.
Proof.
  revert m. induction rules as [|r rules IH]; intros m; cbn.
  - split; [lia | constructor].
  - destruct (IH (Z.max m (LongWindow r))) as [H1 H2].
    unfold maxLongWindow in *. split; [lia|]. constructor; [lia | exact H2].
Qed.

(** C9.  [init] panics exactly when some rule has its short window longer
    than its long window; otherwise it leaves in [MaxAlertRuleWindow] the
    largest [LongWindow] of the table, and one hour at least.  Every rule of
    the shipped table has [ShortWindow <= LongWindow], so [init] does not
    panic there, and [MaxAlertRuleWindow] is 3 days. *)
Theorem C9_startup_check :
  (forall rules,
      initWith rules = Panic <->
      Exists (fun r => ShortWindow r > LongWindow r) rules) /\
  (forall rules,
      Forall (fun r => ShortWindow r <= LongWindow r) rules ->
      initWith rules = Started (maxLongWindow rules Hour) /\
      Hour <= maxLongWindow rules Hour /\
      Forall (fun r => LongWindow r <= maxLongWindow rules Hour) rules) /\
  Forall (fun r => ShortWindow r <= LongWindow r) AlertRules /\
  init <> Panic /\
  init = Started (3 * Day) /\
  maxLongWindow AlertRules Hour = 3 * Day.
Proof.
  split; [intros rules; apply initLoop_panic|].
  split; [intros rules H; split; [apply initLoop_ok, H | apply maxLongWindow_ge]|].
  split; [repeat constructor; vm_compute; discriminate|].
  split; [vm_compute; discriminate|].
  split; reflexivity.
Qed.

End Startup.

(* ================================================================== *)
(** ** The rule loop of [CheckBurnRates] *)
(* ================================================================== *)

Section RuleLoop.

Variables (now : Time) (bad total : TimeSeries) (objective : float).

Lemma checkRules_cons (r : AlertRule) (rules : list AlertRule) (first : BurnRate) :
  checkRules now bad total objective (r :: rules) first =
  if skipped now bad total objective r
  then checkRules now bad total objective rules
         (recordFirst now bad total objective first r)
  else verdict now bad total objective r.
Proof.
  cbn [checkRules]. unfold skipped, longRatio, shortRatio, recordFirst, verdict.
  destruct (burnRate bad total objective (Add now (neg (LongWindow r)))
            <? BurnRateThreshold r)%float; [reflexivity|].
  cbn [orb].
  destruct (burnRate bad total objective (Add now (neg (ShortWindow r)))
            <? BurnRateThreshold r)%float; reflexivity.
Qed.

(** The first rule that is not skipped gives the verdict. *)
Lemma checkRules_first_trip (pre post : list AlertRule) (r : AlertRule)
  (first : BurnRate) :
  (forall r', In r' pre -> skipped now bad total objective r' = true) ->
  skipped now bad total objective r = false ->
  checkRules now bad total objective (pre ++ r :: post) first =
  verdict now bad total objective r.
Proof.
  revert first. induction pre as [|r0 pre IH]; intros first Hpre Hr.
  - simpl app. rewrite checkRules_cons, Hr. reflexivity.
  - simpl app. rewrite checkRules_cons, (Hpre r0 (or_introl eq_refl)).
    apply IH; [|exact Hr]. intros r' Hr'. apply Hpre. right. exact Hr'.
Qed.

(** When every rule is skipped, what was recorded comes back as OK. *)
Lemma checkRules_none_recorded (rules : list AlertRule) (first : BurnRate) :
  (forall r, In r rules -> skipped now bad total objective r = true) ->
  Window first <> 0 ->
  checkRules now bad total objective rules first =
  {| BValue := BValue first; Window := Window first; BSeverity := OK |}.
Proof.
  revert first. induction rules as [|r rules IH]; intros first Hall Hw.
  - reflexivity.
  - rewrite checkRules_cons, (Hall r (or_introl eq_refl)).
    assert (E : recordFirst now bad total objective first r = first).
    { unfold recordFirst. destruct (Window first =? 0) eqn:E; [lia | reflexivity]. }
    rewrite E. apply IH; [|exact Hw]. intros r' Hr'. apply Hall. right. exact Hr'.
Qed.

Lemma checkRules_none (r1 : AlertRule) (rules : list AlertRule) :
  (forall r, In r (r1 :: rules) -> skipped now bad total objective r = true) ->
  LongWindow r1 <> 0 ->
  checkRules now bad total objective (r1 :: rules) zeroBurnRate =
  {| BValue := longRatio now bad total objective r1;
     Window := LongWindow r1;
     BSeverity := OK |}.
Proof.
  intros Hall Hw.
  rewrite checkRules_cons, (Hall r1 (or_introl eq_refl)).
  rewrite checkRules_none_recorded; [reflexivity | | exact Hw].
  intros r Hr. apply Hall. right. exact Hr.
Qed.

End RuleLoop.

(* ================================================================== *)
(** ** C3, C2, C4, C1: the verdicts of [CheckBurnRates] *)
(* ================================================================== *)

Section Verdicts.

Local Open Scope float_scope.

Lemma CheckBurnRatesWith_nonempty (rules : list AlertRule) (now : Time)
  (bad total : TimeSeries) (objectivePercentage : float) :
  IsEmpty (Some bad) = false ->
  IsEmpty (Some total) = false ->
  CheckBurnRatesWith rules now (Some bad) (Some total) objectivePercentage =
  checkRules now bad total (1 - objectivePercentage / 100) rules zeroBurnRate.
Proof.
  intros Hb Ht. unfold CheckBurnRatesWith. rewrite Hb, Ht. reflexivity.
Qed.

(** C3, as the code has it.  When the bad or the total series is empty
    for [IsEmpty], that is nil, or a leaf whose [isEmpty()] is true, or an
    aggregated series without any input, [CheckBurnRates] returns
    [{Severity: UNKNOWN, Value: 0, Window: 0}], whatever the instant and the
    objective; no rule is looked at, the answer being the same for every
    rule table.  An aggregated series with an input is never empty in this
    sense, whatever its length and its points. *)
Theorem C3_empty_input_unknown (now : Time) (bad total : option TimeSeries)
  (objectivePercentage : float) :
  IsEmpty bad = true \/ IsEmpty total = true ->
  CheckBurnRates now bad total objectivePercentage =
    {| BValue := 0; Window := 0%Z; BSeverity := UNKNOWN |} /\
  (forall rules,
      CheckBurnRatesWith rules now bad total objectivePercentage =
      {| BValue := 0; Window := 0%Z; BSeverity := UNKNOWN |}) /\
  (forall o,
      IsEmpty o = true <->
      o = None \/
      (exists n d, o = Some (LeafSeries n true d)) \/
      (exists aggFunc, o = Some (AggregatedTimeseries [] aggFunc))) /\
  (forall input aggFunc,
      input <> [] -> IsEmpty (Some (AggregatedTimeseries input aggFunc)) = false).
Proof.
  intros H.
  assert (E : IsEmpty bad || IsEmpty total = true).
  { apply orb_true_iff. exact H. }
  split; [|split; [|split]].
  - unfold CheckBurnRates, CheckBurnRatesWith. rewrite E. reflexivity.
  - intros rules. unfold CheckBurnRatesWith. rewrite E. reflexivity.
  - intros [[n e d|input aggFunc]|]; cbn [IsEmpty isEmpty].
    + split.
      * intros ->. right. left. exists n, d. reflexivity.
      * intros [Ho|[(n' & d' & Ho)|(f & Ho)]]; try discriminate Ho.
        inversion Ho. reflexivity.
    + split.
      * intros Hl. right. right. exists aggFunc.
        destruct input; [reflexivity | discriminate Hl].
      * intros [Ho|[(n' & d' & Ho)|(f & Ho)]]; try discriminate Ho.
        inversion Ho. reflexivity.
    + split; [left; reflexivity | reflexivity].
  - intros [|o input] aggFunc Hne; [congruence | reflexivity].
Qed.

Lemma C3_empty_input_unknown_witness :
  let total := Some (LeafSeries 1 false (Some [(0%Z, 1)])) in
  IsEmpty (Some (AggregatedTimeseries [] NanSum)) = true /\
  CheckBurnRates 0%Z (Some (AggregatedTimeseries [] NanSum)) total 99 =
    {| BValue := 0; Window := 0%Z; BSeverity := UNKNOWN |}.
Proof.
  split; [reflexivity|].
  apply (C3_empty_input_unknown 0%Z (Some (AggregatedTimeseries [] NanSum))
           (Some (LeafSeries 1 false (Some [(0%Z, 1)]))) 99).
  left. reflexivity.
Defined.

(** C3, as stated, fails: the bad series below has length zero and yields
    no point, yet the verdict is not UNKNOWN; the rules are looked at and
    the first one gives CRITICAL with a NaN value. *)
Lemma C3_zero_length_series_is_not_unknown :
  let bad := AggregatedTimeseries [Some (AggregatedTimeseries [] NanSum)] NanSum in
  let total := LeafSeries 1 false (Some [(0%Z, 1)]) in
  len bad = 0%Z /\
  points bad = [] /\
  IsEmpty (Some bad) = false /\
  CheckBurnRates 0%Z (Some bad) (Some total) 99 =
    {| BValue := NaN; Window := Hour; BSeverity := CRITICAL |}.
Proof.
  repeat split; vm_compute; reflexivity.
Qed.

(** C2, as the code has it.  [CheckBurnRates] goes through the rule table
    in its order.  A rule whose long-window ratio is below its threshold, or
    whose short-window ratio is, is skipped and the loop goes on with the
    next rule; the first rule neither of whose two ratios is below its
    threshold ends the loop with
    [{Value: short-window ratio, Window: LongWindow, Severity: Severity}].
    A ratio that is at least the threshold is not below it, and neither is
    a NaN ratio. *)
Theorem C2_first_tripping_rule_wins (now : Time) (bad total : TimeSeries)
  (objectivePercentage objective : float)
  (pre post : list AlertRule) (r : AlertRule) :
  objective = 1 - objectivePercentage / 100 ->
  IsEmpty (Some bad) = false ->
  IsEmpty (Some total) = false ->
  AlertRules = pre ++ r :: post ->
  (forall r', In r' pre ->
     (longRatio now bad total objective r' <? BurnRateThreshold r') = true \/
     (shortRatio now bad total objective r' <? BurnRateThreshold r') = true) ->
  (longRatio now bad total objective r <? BurnRateThreshold r) = false ->
  (shortRatio now bad total objective r <? BurnRateThreshold r) = false ->
  CheckBurnRates now (Some bad) (Some total) objectivePercentage =
    {| BValue := shortRatio now bad total objective r;
       Window := LongWindow r;
       BSeverity := Severity r |} /\
  (forall r0 rules first,
      (longRatio now bad total objective r0 <? BurnRateThreshold r0) = true \/
      (shortRatio now bad total objective r0 <? BurnRateThreshold r0) = true ->
      checkRules now bad total objective (r0 :: rules) first =
      checkRules now bad total objective rules
        (recordFirst now bad total objective first r0)) /\
  (forall x th : float,
      (th <=? x) = true \/ is_nan x = true -> (x <? th) = false).
Proof.
  intros -> Hb Ht Hrules Hpre Hlong Hshort. split; [|split].
  - unfold CheckBurnRates. rewrite (CheckBurnRatesWith_nonempty _ _ _ _ _ Hb Ht).
    rewrite Hrules. apply checkRules_first_trip.
    + intros r' Hr'. unfold skipped. apply orb_true_iff, Hpre, Hr'.
    + unfold skipped. rewrite Hlong, Hshort. reflexivity.
  - intros r0 rules first H0. rewrite checkRules_cons.
    unfold skipped at 1. apply orb_true_iff in H0. rewrite H0. reflexivity.
  - intros x th [H|H]; [apply leb_not_ltb, H|].
    apply is_nan_SF in H. rewrite ltb_spec, H. reflexivity.
Qed.

(** C2, as stated, fails: below, the first rule whose two ratios are both
    at least its threshold is the third one (the ratios of the first rule
    are NaN, and so is the short-window ratio of the second), yet
    [CheckBurnRates] returns the verdict of the first rule. *)
Lemma C2_nan_rule_trips_before_first_at_least :
  let bad := LeafSeries 1 false (Some [(94600%Z, 50)]) in
  let total := LeafSeries 1 false (Some [(94600%Z, 100)]) in
  let objective := 1 - 99 / 100 in
  let r1 := {| LongWindow := Hour; ShortWindow := (5 * Minute)%Z;
               BurnRateThreshold := 0x1.ccccccccccccdp+3; Severity := CRITICAL |} in
  let r2 := {| LongWindow := (6 * Hour)%Z; ShortWindow := (30 * Minute)%Z;
               BurnRateThreshold := 6; Severity := CRITICAL |} in
  let r3 := {| LongWindow := Day; ShortWindow := (2 * Hour)%Z;
               BurnRateThreshold := 3; Severity := WARNING |} in
  let r4 := {| LongWindow := (3 * Day)%Z; ShortWindow := (6 * Hour)%Z;
               BurnRateThreshold := 1; Severity := WARNING |} in
  AlertRules = [r1; r2] ++ r3 :: [r4] /\
  (BurnRateThreshold r1 <=? longRatio 100000%Z bad total objective r1) = false /\
  (BurnRateThreshold r2 <=? shortRatio 100000%Z bad total objective r2) = false /\
  (BurnRateThreshold r3 <=? longRatio 100000%Z bad total objective r3) = true /\
  (BurnRateThreshold r3 <=? shortRatio 100000%Z bad total objective r3) = true /\
  CheckBurnRates 100000%Z (Some bad) (Some total) 99 =
    {| BValue := NaN; Window := Hour; BSeverity := CRITICAL |} /\
  CheckBurnRates 100000%Z (Some bad) (Some total) 99 <>
    {| BValue := shortRatio 100000%Z bad total objective r3;
       Window := LongWindow r3;
       BSeverity := Severity r3 |}.
Proof.
  repeat split; try (vm_compute; reflexivity).
  intros H. apply (f_equal BSeverity) in H. vm_compute in H. discriminate H.
Qed.

(** C4.  When no rule trips, every rule of the table having its long-window
    ratio or its short-window ratio below its threshold, [CheckBurnRates]
    returns what it recorded at the first rule, as OK: the first rule's
    long window, which is one hour, and its long-window ratio. *)
Theorem C4_fallback_when_no_rule_trips (now : Time) (bad total : TimeSeries)
  (objectivePercentage objective : float)
  (r1 : AlertRule) (rules : list AlertRule) :
  objective = 1 - objectivePercentage / 100 ->
  IsEmpty (Some bad) = false ->
  IsEmpty (Some total) = false ->
  AlertRules = r1 :: rules ->
  (forall r, In r AlertRules ->
     (longRatio now bad total objective r <? BurnRateThreshold r) = true \/
     (shortRatio now bad total objective r <? BurnRateThreshold r) = true) ->
  CheckBurnRates now (Some bad) (Some total) objectivePercentage =
    {| BValue := longRatio now bad total objective r1;
       Window := LongWindow r1;
       BSeverity := OK |} /\
  LongWindow r1 = Hour.
Proof.
  intros -> Hb Ht Hrules Hall.
  unfold CheckBurnRates. rewrite (CheckBurnRatesWith_nonempty _ _ _ _ _ Hb Ht).
  assert (Hw : LongWindow r1 = Hour) by (inversion Hrules; reflexivity).
  split; [|exact Hw].
  rewrite Hrules in Hall |- *. apply checkRules_none.
  - intros r Hr. unfold skipped. apply orb_true_iff, Hall, Hr.
  - rewrite Hw. discriminate.
Qed.

Lemma C2_first_tripping_rule_wins_witness :
  let bad := LeafSeries 2 false (Some [(34800%Z, 14); (35880%Z, 0)]) in
  let total := LeafSeries 2 false (Some [(34800%Z, 100); (35880%Z, 100)]) in
  CheckBurnRates 36000%Z (Some bad) (Some total) 99 =
  {| BValue := shortRatio 36000%Z bad total (1 - 99 / 100)
                 {| LongWindow := (6 * Hour)%Z; ShortWindow := (30 * Minute)%Z;
                    BurnRateThreshold := 6; Severity := CRITICAL |};
     Window := (6 * Hour)%Z;
     BSeverity := CRITICAL |}.
Proof.
  intros bad total.
  refine (proj1
            (C2_first_tripping_rule_wins 36000%Z bad total 99 (1 - 99 / 100)
               [ {| LongWindow := Hour; ShortWindow := (5 * Minute)%Z;
                    BurnRateThreshold := 0x1.ccccccccccccdp+3;
                    Severity := CRITICAL |} ]
               [ {| LongWindow := Day; ShortWindow := (2 * Hour)%Z;
                    BurnRateThreshold := 3; Severity := WARNING |};
                 {| LongWindow := (3 * Day)%Z; ShortWindow := (6 * Hour)%Z;
                    BurnRateThreshold := 1; Severity := WARNING |} ]
               {| LongWindow := (6 * Hour)%Z; ShortWindow := (30 * Minute)%Z;
                  BurnRateThreshold := 6; Severity := CRITICAL |}
               eq_refl eq_refl eq_refl eq_refl _ _ _)).
  - intros r' [<-|[]]. left. vm_compute. reflexivity.
  - vm_compute. reflexivity.
  - vm_compute. reflexivity.
Defined.

Lemma C4_fallback_when_no_rule_trips_witness :
  let bad := LeafSeries 1 false (Some [(0%Z, 0)]) in
  let total := LeafSeries 1 false (Some [(0%Z, 1)]) in
  CheckBurnRates 0%Z (Some bad) (Some total) 99 =
    {| BValue := 0; Window := Hour; BSeverity := OK |}.
Proof.
  intros bad total.
  refine (proj1 (C4_fallback_when_no_rule_trips 0%Z bad total 99 (1 - 99 / 100)
                   {| LongWindow := Hour; ShortWindow := (5 * Minute)%Z;
                      BurnRateThreshold := 0x1.ccccccccccccdp+3;
                      Severity := CRITICAL |}
                   (tl AlertRules) eq_refl eq_refl eq_refl eq_refl _)).
  intros r Hr. left.
  repeat (destruct Hr as [<-|Hr]; [vm_compute; reflexivity|]).
  destruct Hr.
Defined.

(** C1, as the code has it.  When the NaN-aware sum of the total series
    from the start of a window is zero, the ratio of that window is NaN or
    an infinity, and unless it is negative it is not below the threshold:
    the check of that window does not skip the rule.  Such a rule trips, and
    [CheckBurnRates] returns its verdict, when the ratio of its other window
    is not below the threshold either and every earlier rule is skipped; in
    particular it trips when both of its windows have a zero total. *)
Theorem C1_zero_total_does_not_skip (now : Time) (bad total : TimeSeries)
  (objectivePercentage objective : float)
  (pre post : list AlertRule) (r : AlertRule) :
  objective = 1 - objectivePercentage / 100 ->
  IsEmpty (Some bad) = false ->
  IsEmpty (Some total) = false ->
  AlertRules = pre ++ r :: post ->
  (forall r', In r' pre -> skipped now bad total objective r' = true) ->
  (forall from,
      (sumFrom total from =? 0) = true ->
      nanOrInf (burnRate bad total objective from) = true /\
      ((burnRate bad total objective from <? 0) = false ->
       (burnRate bad total objective from <? BurnRateThreshold r) = false)) /\
  ((longRatio now bad total objective r <? BurnRateThreshold r) = false ->
   (shortRatio now bad total objective r <? BurnRateThreshold r) = false ->
   CheckBurnRates now (Some bad) (Some total) objectivePercentage =
   verdict now bad total objective r) /\
  ((sumFrom total (Add now (neg (LongWindow r))) =? 0) = true ->
   (sumFrom total (Add now (neg (ShortWindow r))) =? 0) = true ->
   (longRatio now bad total objective r <? 0) = false ->
   (shortRatio now bad total objective r <? 0) = false ->
   CheckBurnRates now (Some bad) (Some total) objectivePercentage =
   verdict now bad total objective r).
Proof.
  intros -> Hb Ht Hrules Hpre.
  assert (Hwin : forall from,
             (sumFrom total from =? 0) = true ->
             nanOrInf (burnRate bad total (1 - objectivePercentage / 100) from) = true).
  { intros from Hz. unfold burnRate.
    apply nanOrInf_div, div_zero_nanOrInf, Hz. }
  assert (Htrip :
            (longRatio now bad total (1 - objectivePercentage / 100) r
             <? BurnRateThreshold r) = false ->
            (shortRatio now bad total (1 - objectivePercentage / 100) r
             <? BurnRateThreshold r) = false ->
            CheckBurnRates now (Some bad) (Some total) objectivePercentage =
            verdict now bad total (1 - objectivePercentage / 100) r).
  { intros Hl Hs. unfold CheckBurnRates.
    rewrite (CheckBurnRatesWith_nonempty _ _ _ _ _ Hb Ht), Hrules.
    apply checkRules_first_trip; [exact Hpre|].
    unfold skipped. rewrite Hl, Hs. reflexivity. }
  split; [|split; [exact Htrip|]].
  - intros from Hz. split; [apply Hwin, Hz|].
    apply nanOrInf_not_below, Hwin, Hz.
  - intros HzL HzS HnL HnS. apply Htrip.
    + apply nanOrInf_not_below; [apply Hwin, HzL | exact HnL].
    + apply nanOrInf_not_below; [apply Hwin, HzS | exact HnS].
Qed.

Lemma C1_zero_total_does_not_skip_witness :
  let s := LeafSeries 1 false (Some [(0%Z, 0)]) in
  CheckBurnRates 0%Z (Some s) (Some s) 99 =
    {| BValue := NaN; Window := Hour; BSeverity := CRITICAL |}.
Proof.
  intros s.
  refine (proj2 (proj2
            (C1_zero_total_does_not_skip 0%Z s s 99 (1 - 99 / 100) []
               (tl AlertRules)
               {| LongWindow := Hour; ShortWindow := (5 * Minute)%Z;
                  BurnRateThreshold := 0x1.ccccccccccccdp+3;
                  Severity := CRITICAL |}
               eq_refl eq_refl eq_refl eq_refl _)) _ _ _ _).
  - intros r' [].
  - vm_compute. reflexivity.
  - vm_compute. reflexivity.
  - vm_compute. reflexivity.
  - vm_compute. reflexivity.
Defined.

(** C1, as stated, fails: with a total series whose sums over both windows
    of the first rule are zero, [CheckBurnRates] returns the severity
    verdict of that rule. *)
Lemma C1_zero_total_first_rule_trips :
  let s := LeafSeries 1 false (Some [(0%Z, 0)]) in
  let r := {| LongWindow := Hour; ShortWindow := (5 * Minute)%Z;
              BurnRateThreshold := 0x1.ccccccccccccdp+3; Severity := CRITICAL |} in
  In r AlertRules /\
  IsEmpty (Some s) = false /\
  (sumFrom s (Add 0%Z (neg (LongWindow r))) =? 0) = true /\
  (sumFrom s (Add 0%Z (neg (ShortWindow r))) =? 0) = true /\
  is_nan (longRatio 0%Z s s (1 - 99 / 100) r) = true /\
  (longRatio 0%Z s s (1 - 99 / 100) r <? BurnRateThreshold r) = false /\
  CheckBurnRates 0%Z (Some s) (Some s) 99 = verdict 0%Z s s (1 - 99 / 100) r /\
  BSeverity (CheckBurnRates 0%Z (Some s) (Some s) 99) = Severity r.
Proof.
  intros s r. split; [left; reflexivity|].
  repeat split; vm_compute; reflexivity.
Qed.

End Verdicts.

(* ================================================================== *)
(** ** Scenarios *)
(* ================================================================== *)

Section Scenarios.

Local Open Scope float_scope.

(** Two inputs and the sum as reducer: point by point [a(t) + b(t)], up to
    the end of the shorter input. *)
Example plus_of_two_inputs :
  points (AggregatedTimeseries
            [Some (LeafSeries 3 false (Some [(0%Z, 1); (60%Z, 2); (120%Z, 3)]));
             Some (LeafSeries 2 false (Some [(0%Z, 10); (60%Z, 20)]))]
            NanSum) =
  [(0%Z, 11); (60%Z, 22)].
Proof. vm_compute. reflexivity. Qed.

(** Three inputs: the fold from a missing accumulator. *)
Example sum_of_three_inputs :
  points (AggregatedTimeseries
            [Some (LeafSeries 1 false (Some [(0%Z, 1)]));
             None;
             Some (LeafSeries 1 false (Some [(0%Z, NaN)]));
             Some (LeafSeries 1 false (Some [(0%Z, 3)]))]
            NanSum) =
  [(0%Z, 4)].
Proof. vm_compute. reflexivity. Qed.

(** A failure ratio at twenty times the allowed fraction on every window:
    the first rule fires. *)
Example constant_burn_is_critical :
  let bad := LeafSeries 1 false (Some [(35880%Z, 20)]) in
  let total := LeafSeries 1 false (Some [(35880%Z, 100)]) in
  let v := CheckBurnRates 36000%Z (Some bad) (Some total) 99 in
  BSeverity v = CRITICAL /\ Window v = Hour.
Proof. split; vm_compute; reflexivity. Qed.

(** Twenty times over the hour, but back to the allowed fraction in the
    last five minutes: the first rule is skipped and the second one, with
    its own windows, gives the verdict. *)
Example recovered_burn_falls_through :
  let bad := LeafSeries 2 false (Some [(34800%Z, 39); (35880%Z, 1)]) in
  let total := LeafSeries 2 false (Some [(34800%Z, 100); (35880%Z, 100)]) in
  let v := CheckBurnRates 36000%Z (Some bad) (Some total) 99 in
  BSeverity v = CRITICAL /\ Window v = (6 * Hour)%Z.
Proof. split; vm_compute; reflexivity. Qed.

End Scenarios.

(* ================================================================== *)
(** ** The step of a long range *)
(* ================================================================== *)

Section StepOfRange.

Ltac by_bands :=
  unfold increaseStepForBigDurations, maxDuration, Hour, Minute in *;
  rewrite ?Z.gtb_ltb, ?Z.geb_leb in *;
  repeat match goal with
    | |- context [?a <? ?b] => destruct (Z.ltb_spec a b)
    | |- context [?a <=? ?b] => destruct (Z.leb_spec a b)
    end;
  try lia.

Lemma increaseStep_ge (duration step : Duration) :
  step <= increaseStepForBigDurations duration step.
Proof.
  by_bands.
Qed.

(** The step is never made smaller; it is left as it is for a range of at
    most four hours, and is one minute at least for a longer range. *)
Theorem increaseStep_never_decreases (duration step : Duration) :
  step <= increaseStepForBigDurations duration step /\
  (duration <= 4 * Hour -> increaseStepForBigDurations duration step = step) /\
  (4 * Hour < duration -> Minute <= increaseStepForBigDurations duration step).
Proof.
  repeat split; by_bands.
Qed.

(** A longer range or a larger step never gives a smaller step. *)
Theorem increaseStep_monotone (duration duration' step step' : Duration) :
  duration <= duration' -> step <= step' ->
  increaseStepForBigDurations duration step <=
  increaseStepForBigDurations duration' step'.
Proof.
  intros Hd Hs. by_bands.
Qed.

Lemma increaseStep_monotone_witness :
  increaseStepForBigDurations (5 * Hour) 15 <=
  increaseStepForBigDurations (2 * Day) 30.
Proof.
  apply (increaseStep_monotone (5 * Hour) (2 * Day) 15 30);
    unfold Day, Hour, Minute; lia.
Defined.

(** Increasing the step twice for the same range is increasing it once. *)
Theorem increaseStep_idempotent (duration step : Duration) :
  increaseStepForBigDurations duration
    (increaseStepForBigDurations duration step) =
  increaseStepForBigDurations duration step.
Proof.
  by_bands.
Qed.

(** A range of more than four hours and at most five days is cut into at
    most 480 steps, whatever the step asked for. *)
Theorem increaseStep_bounds_points (duration step : Duration) :
  4 * Hour < duration -> duration <= 5 * 24 * Hour ->
  duration <= 480 * increaseStepForBigDurations duration step /\
  duration / increaseStepForBigDurations duration step <= 480.
Proof.
  intros Hlo Hhi.
  assert (H : 0 < increaseStepForBigDurations duration step /\
              duration <= 480 * increaseStepForBigDurations duration step).
  { by_bands. }
  destruct H as [Hpos Hle]. split; [exact Hle|].
  apply Z.div_le_upper_bound; lia.
Qed.

Lemma increaseStep_bounds_points_witness :
  (5 * Day) / increaseStepForBigDurations (5 * Day) 15 <= 480.
Proof.
  apply (increaseStep_bounds_points (5 * Day) 15);
    unfold Day, Hour, Minute; lia.
Defined.

End StepOfRange.

(* ================================================================== *)
(** ** The range [loadWorld] asks the constructor for *)
(* ================================================================== *)

Section LoadWorld.

Context {World CheckConfigs Error : Type}.
Variables (IsZero : Time -> bool) (Truncate : Time -> Duration -> Time)
          (Sub : Time -> Time -> Duration).
Variables (RefreshInterval : Duration)
          (GetCheckConfigs : CheckConfigs + Error)
          (LoadWorld : CheckConfigs -> Time -> Time -> Duration ->
                       option World * option Error).

(** An error of the cache client is returned as it is, and a cache that
    has nothing yet, or nothing as late as the start of the range, gives no
    world and no error: in both cases whatever the database and the
    constructor would answer. *)
Theorem loadWorld_without_cache (from to : Time) :
  (forall err,
      loadWorld IsZero Truncate Sub (inr err) RefreshInterval GetCheckConfigs
        LoadWorld from to = (None, Some err)) /\
  (forall cacheTo,
      IsZero cacheTo = true \/
      cacheTo < Truncate from RefreshInterval ->
      loadWorld IsZero Truncate Sub (inl cacheTo) RefreshInterval GetCheckConfigs
        LoadWorld from to = (None, None)).
Proof.
  split; [reflexivity|].
  intros cacheTo H. unfold loadWorld.
  assert (E : IsZero cacheTo || Before cacheTo (Truncate from RefreshInterval) = true).
  { apply orb_true_iff. destruct H as [H|H]; [left; exact H|].
    right. apply Z.ltb_lt, H. }
  rewrite E. reflexivity.
Qed.

(** When the cache reaches the start of the range and the check
    configurations are there, the constructor is asked for a range that
    ends at the end asked for or at the end of the cache, whichever is
    earlier, and never after either of them; a range cut at the end of the
    cache starts its duration before; the step is the one the duration
    calls for, at least the refresh interval. *)
Theorem loadWorld_range (cacheTo from to : Time) (checkConfigs : CheckConfigs) :
  IsZero cacheTo = false ->
  Truncate from RefreshInterval <= cacheTo ->
  GetCheckConfigs = inl checkConfigs ->
  let from0 := Truncate from RefreshInterval in
  let to0 := Truncate to RefreshInterval in
  let duration := Sub to0 from0 in
  exists from' to' step',
    loadWorld IsZero Truncate Sub (inl cacheTo) RefreshInterval GetCheckConfigs
      LoadWorld from to = LoadWorld checkConfigs from' to' step' /\
    to' = Z.min to0 cacheTo /\
    to' <= cacheTo /\ to' <= to0 /\
    (to0 <= cacheTo -> from' = from0) /\
    (cacheTo < to0 -> from' = Add cacheTo (neg duration)) /\
    step' = increaseStepForBigDurations duration RefreshInterval /\
    RefreshInterval <= step'.
Proof.
  intros Hz Hfrom Hcc from0 to0 duration. unfold loadWorld.
  fold from0 to0 duration. rewrite Hz, Hcc. cbn [orb].
  assert (E : Before cacheTo from0 = false) by (apply Z.ltb_ge; exact Hfrom).
  rewrite E.
  pose proof (increaseStep_ge duration RefreshInterval) as Hstep.
  unfold Before. destruct (Z.ltb_spec cacheTo to0) as [Hlt|Hge].
  - exists (Add cacheTo (neg duration)), cacheTo,
      (increaseStepForBigDurations duration RefreshInterval).
    repeat split; first [reflexivity | lia].
  - exists from0, to0, (increaseStepForBigDurations duration RefreshInterval).
    repeat split; first [reflexivity | lia].
Qed.

End LoadWorld.

Lemma loadWorld_range_witness :
  exists from' to' step',
    loadWorld (fun t => t =? 0) (fun t d => t - t mod d) (fun t u => t - u)
      (inl 7200 : Time + unit) 15 (inl tt : unit + unit)
      (fun _ from to step => (Some (from, to, step), None)) 3600 9000 =
    (Some (from', to', step'), None) /\
    from' = 1800 /\ to' = 7200 /\ step' = 15.
Proof.
  destruct (loadWorld_range (World := Time * Time * Duration) (Error := unit)
              (fun t => t =? 0) (fun t d => t - t mod d) (fun t u => t - u)
              15 (inl tt)
              (fun _ from to step => (Some (from, to, step), None))
              7200 3600 9000 tt eq_refl)
    as (from' & to' & step' & H & Hto & _ & _ & _ & Hfrom & Hstep & _).
  - vm_compute. discriminate.
  - reflexivity.
  - exists from', to', step'. split; [exact H|].
    rewrite Hfrom, Hto, Hstep; [|reflexivity].
    repeat split.
Defined.

(* ================================================================== *)
(** ** Building an aggregated series *)
(* ================================================================== *)

Section Building.

Lemma AddInput_app (input tss : list (option TimeSeries)) :
  AddInput input tss =
  input ++ filter (fun t => match t with Some _ => true | None => false end) tss.
Proof.
  unfold AddInput. revert input.
  induction tss as [|[ts|] tss IH]; intros input; cbn [fold_left filter].
  - symmetry. apply app_nil_r.
  - rewrite IH, <- app_assoc. reflexivity.
  - apply IH.
Qed.

(** [AddInput] appends the non-nil series in their order and nothing else;
    so adding in two calls is adding in one, and a series built from no
    input has no nil among its inputs. *)
Theorem AddInput_appends_non_nil (input tss tss' : list (option TimeSeries)) :
  AddInput input tss =
    input ++ filter (fun t => match t with Some _ => true | None => false end) tss /\
  AddInput (AddInput input tss) tss' = AddInput input (tss ++ tss') /\
  ~ In None (AddInput [] tss).
Proof.
  split; [apply AddInput_app|]. split.
  - rewrite !AddInput_app, filter_app, app_assoc. reflexivity.
  - rewrite AddInput_app. cbn [app]. intros H.
    apply filter_In in H as [_ H]. discriminate.
Qed.

Lemma firstNonNil_AddInput (input tss : list (option TimeSeries)) :
  firstNonNil (AddInput input tss) = firstNonNil (input ++ tss).
Proof.
  rewrite AddInput_app.
  induction input as [|[ts|] input IH]; cbn [app firstNonNil]; auto.
  induction tss as [|[ts|] tss IH]; cbn [filter firstNonNil]; auto.
Qed.

Lemma iterInputs_AddInput (input tss : list (option TimeSeries)) :
  iterInputs iter (AddInput input tss) = iterInputs iter (input ++ tss).
Proof.
  rewrite !iterInputs_live, AddInput_app, !filter_app. do 2 f_equal.
  induction tss as [|[ts|] tss IH]; cbn [filter]; auto.
  destruct (live (Some ts)); [f_equal|]; exact IH.
Qed.

Lemma filter_all_nil (tss : list (option TimeSeries)) :
  (forall t, In t tss -> t = None) ->
  filter (fun t => match t with Some _ => true | None => false end) tss = [].
Proof.
  induction tss as [|t tss IH]; intros Hall; [reflexivity|].
  cbn [filter]. rewrite (Hall t (or_introl eq_refl)).
  apply IH. intros t' Ht'. apply Hall. right. exact Ht'.
Qed.

(** Passing over the nil series changes neither the length nor the
    iterator of the series, and so not its points; the series is empty after
    [AddInput] exactly when it was empty before and every added series is
    nil. *)
Theorem AddInput_nil_is_invisible
  (input tss : list (option TimeSeries)) (aggFunc : F) :
  len (AggregatedTimeseries (AddInput input tss) aggFunc) =
    len (AggregatedTimeseries (input ++ tss) aggFunc) /\
  iter (AggregatedTimeseries (AddInput input tss) aggFunc) =
    iter (AggregatedTimeseries (input ++ tss) aggFunc) /\
  points (AggregatedTimeseries (AddInput input tss) aggFunc) =
    points (AggregatedTimeseries (input ++ tss) aggFunc) /\
  (isEmpty (AggregatedTimeseries (AddInput input tss) aggFunc) = true <->
   input = [] /\ forall t, In t tss -> t = None).
Proof.
  assert (Hiter : iter (AggregatedTimeseries (AddInput input tss) aggFunc) =
                  iter (AggregatedTimeseries (input ++ tss) aggFunc)).
  { rewrite !iter_agg, iterInputs_AddInput. reflexivity. }
  split; [rewrite !len_agg, firstNonNil_AddInput; reflexivity|].
  split; [exact Hiter|]. split; [unfold points; rewrite Hiter; reflexivity|].
  cbn [isEmpty]. rewrite AddInput_app, Z.eqb_eq. split.
  - intros H. assert (H' : length (input ++ filter
        (fun t => match t with Some _ => true | None => false end) tss) = 0%nat) by lia.
    apply length_zero_iff_nil, app_eq_nil in H' as [-> Hf]. split; [reflexivity|].
    intros [ts|] Ht; [|reflexivity].
    assert (Hin : In (Some ts) (filter
        (fun t => match t with Some _ => true | None => false end) tss)).
    { apply filter_In. split; [exact Ht | reflexivity]. }
    rewrite Hf in Hin. destruct Hin.
  - intros [-> Hall]. cbn [app].
    rewrite (filter_all_nil tss Hall). reflexivity.
Qed.

End Building.

(* ================================================================== *)
(** ** Timestamps and single inputs of an aggregated series *)
(* ================================================================== *)

Section Timestamps.

Variable aggFunc : F.

Lemma foldStep_fst (col : list Point) (st : Time * float) :
  fst (fold_left (foldStep aggFunc) col st) = fst (List.last col st).
Proof.
  revert st. induction col as [|p col IH]; intros st; [reflexivity|].
  cbn [fold_left]. rewrite IH. destruct col as [|q col].
  - destruct p. reflexivity.
  - rewrite (last_cons_default q col _ st). reflexivity.
Qed.

Lemma heads_last (rows : list (list Point)) (r col : list Point) (d : Point) :
  heads (rows ++ [r]) = Some col ->
  exists p, r = p :: tl r /\ List.last col d = p.
Proof.
  revert col. induction rows as [|[|q r0] rows IH]; intros col H.
  - destruct r as [|p r]; [discriminate|]. inversion H. exists p. auto.
  - discriminate.
  - cbn [app heads] in H.
    destruct (heads (rows ++ [r])) as [c|] eqn:E; [|discriminate].
    inversion H; subst. destruct (IH c eq_refl) as (p & Hr & Hp).
    exists p. split; [exact Hr|].
    destruct c as [|c0 c]; [|exact Hp].
    destruct rows as [|[|? ?] ?]; cbn in E.
    + destruct r; discriminate.
    + discriminate.
    + destruct (heads (rows ++ [r])); discriminate.
Qed.

(** The timestamps of the folded columns are those of the last row. *)
Lemma columnsN_fold_fst (n : nat) (rows : list (list Point)) (r : list Point) :
  map (fun col => fst (foldColumn aggFunc col)) (columnsN n (rows ++ [r])) =
  map fst (firstn (length (columnsN n (rows ++ [r]))) r).
Proof.
  revert rows r. induction n as [|n IH]; intros rows r; [reflexivity|].
  cbn [columnsN]. destruct (heads (rows ++ [r])) as [col|] eqn:E; [|reflexivity].
  destruct (heads_last rows r col (0, NaN) E) as (p & Hr & Hp).
  destruct r as [|p' r']; [discriminate|]. inversion Hr; subst p'.
  rewrite map_app. cbn [map length tl firstn].
  rewrite (IH (map (@tl Point) rows) r'). f_equal.
  unfold foldColumn. rewrite foldStep_fst, Hp. reflexivity.
Qed.

Lemma combine_pair_fst (pa pb : list Point) :
  map fst (map (fun pq => pairValue aggFunc (fst pq) (snd pq)) (combine pa pb)) =
  map fst (firstn (length (combine pa pb)) pa).
Proof.
  revert pb. induction pa as [|p pa IH]; intros [|q pb]; try reflexivity.
  cbn. f_equal. apply IH.
Qed.

Lemma columnsN_one (r : list Point) :
  columnsN (length r) [r] = map (fun p => [p]) r.
Proof.
  induction r as [|p r IH]; [reflexivity|]. cbn. f_equal. exact IH.
Qed.

(** With exactly two live inputs the points of an aggregated series carry
    the timestamps of the first of them; with any other number they carry
    the timestamps of the last live input. *)
Theorem aggregated_timestamps (input : list (option TimeSeries)) :
  let ts := AggregatedTimeseries input aggFunc in
  map fst (points ts) =
  match filter live input with
  | [Some a; Some b] => map fst (firstn (length (points ts)) (points a))
  | l => map fst (firstn (length (points ts)) (pointsOf (List.last l None)))
  end.
Proof.
  intros ts. unfold ts. rewrite points_agg.
  pose proof (live_filter_all input) as Hall.
  assert (Hfold : forall l, l <> [] -> length l <> 2%nat ->
            map fst (map (aggPoint aggFunc) (columns (map pointsOf l))) =
            map fst (firstn (length (map (aggPoint aggFunc) (columns (map pointsOf l))))
                       (pointsOf (List.last l None)))).
  { intros l Hne Hlen. rewrite columns_fold by (rewrite length_map; exact Hlen).
    rewrite map_map, length_map. unfold columns.
    destruct (exists_last Hne) as (l' & o & ->).
    rewrite last_last, map_app. cbn [map]. apply columnsN_fold_fst. }
  destruct (filter live input) as [|o0 [|o1 [|o2 l]]].
  - reflexivity.
  - destruct o0; apply Hfold; discriminate.
  - inversion Hall as [|? ? (a & -> & _) Hall']; subst.
    inversion Hall' as [|? ? (b & -> & _) _]; subst.
    cbn [map pointsOf]. rewrite columns_two, length_map. apply combine_pair_fst.
  - destruct o0 as [a|]; [destruct o1 as [b|]|]; apply Hfold; discriminate.
Qed.

(** With one live input [a], every point of [a] comes out with its
    timestamp and with the reducer applied to a missing accumulator and its
    value. *)
Theorem aggregated_single_input (input : list (option TimeSeries)) (a : TimeSeries) :
  filter live input = [Some a] ->
  points (AggregatedTimeseries input aggFunc) =
  map (fun p => (fst p, aggFunc (fst p) NaN (snd p))) (points a).
Proof.
  intros H. rewrite points_agg, H. cbn [map pointsOf].
  rewrite columns_fold by discriminate.
  unfold columns. cbn [map minList fold_left]. rewrite columnsN_one, map_map.
  apply map_ext. intros [t v]. reflexivity.
Qed.

End Timestamps.

Lemma aggregated_single_input_witness :
  points (AggregatedTimeseries
            [None; Some (LeafSeries 2 false (Some [(0, 1%float); (60, 2%float)]));
             Some (AggregatedTimeseries [] NanSum)]
            (fun _ _ v => (v + v)%float)) =
  [(0, 2%float); (60, 4%float)].
Proof.
  apply (aggregated_single_input (fun _ _ v => (v + v)%float)
           [None; Some (LeafSeries 2 false (Some [(0, 1%float); (60, 2%float)]));
            Some (AggregatedTimeseries [] NanSum)]
           (LeafSeries 2 false (Some [(0, 1%float); (60, 2%float)]))).
  reflexivity.
Defined.


(* ================================================================== *)
(** ** The windowed sum *)
(* ================================================================== *)

Section WindowedSum.

Local Open Scope float_scope.

Lemma foldPoints_app (f : F) (pts pts' : list Point) (acc : float) :
  foldPoints f (pts ++ pts') acc = foldPoints f pts' (foldPoints f pts acc).
Proof.
  unfold foldPoints. apply fold_left_app.
Qed.

Lemma foldPoints_cons (f : F) (p : Point) (pts : list Point) (acc : float) :
  foldPoints f (p :: pts) acc = foldPoints f pts (f (fst p) acc (snd p)).
Proof.
  reflexivity.
Qed.

Lemma foldPoints_ext (f g : F) (pts : list Point) (acc : float) :
  (forall p a, In p pts -> f (fst p) a (snd p) = g (fst p) a (snd p)) ->
  foldPoints f pts acc = foldPoints g pts acc.
Proof.
  revert acc. induction pts as [|p pts IH]; intros acc H; [reflexivity|].
  unfold foldPoints in *. cbn [fold_left].
  rewrite (H p acc (or_introl eq_refl)). apply IH.
  intros q a Hq. apply H. right. exact Hq.
Qed.

Lemma sumFrom_foldPoints (ts : TimeSeries) (from : Time) :
  sumFrom ts from =
  foldPoints (fun t accumulator v =>
                if Before t from then 0 else NanSum t accumulator v)
             (points ts) NaN.
Proof.
  unfold sumFrom. apply Reduce_foldPoints.
Qed.

Lemma sumFrom_restarts_at_old_point_aux
  (ts : TimeSeries) (from : Time) (pre post : list Point) (p : Point) :
  points ts = pre ++ p :: post ->
  fst p < from ->
  (forall q, In q post -> from <= fst q) ->
  sumFrom ts from = foldPoints NanSum post 0.
Proof.
  intros Hpts Hp Hpost.
  rewrite sumFrom_foldPoints, Hpts, foldPoints_app, foldPoints_cons.
  assert (E : Before (fst p) from = true) by (apply Z.ltb_lt; exact Hp).
  rewrite E. apply foldPoints_ext. intros q a Hq.
  assert (E' : Before (fst q) from = false) by (apply Z.ltb_ge, Hpost, Hq).
  rewrite E'. reflexivity.
Qed.

(** A point before the start of the window does not only count for
    nothing: it sets the sum back to zero.  The sum is the NaN-aware sum of
    the points after the last point that lies before [from], starting from
    zero. *)
Theorem sumFrom_restarts_at_old_point
  (ts : TimeSeries) (from : Time) (pre post : list Point) (p : Point) :
  points ts = pre ++ p :: post ->
  fst p < from ->
  (forall q, In q post -> from <= fst q) ->
  sumFrom ts from = foldPoints NanSum post 0.
Proof.
  apply sumFrom_restarts_at_old_point_aux.
Qed.

Lemma sumFrom_restarts_at_old_point_witness :
  sumFrom (LeafSeries 3 false (Some [(0%Z, 5); (10%Z, 7); (20%Z, 1)])) 20%Z = 1.
Proof.
  rewrite (sumFrom_restarts_at_old_point
             (LeafSeries 3 false (Some [(0%Z, 5); (10%Z, 7); (20%Z, 1)])) 20%Z
             [(0%Z, 5)] [(20%Z, 1)] (10%Z, 7)).
  - vm_compute. reflexivity.
  - reflexivity.
  - reflexivity.
  - intros q [<-|[]]. vm_compute. discriminate.
Defined.

(** When no point lies before [from], the windowed sum is the NaN-aware sum
    of the whole series. *)
Theorem sumFrom_of_whole_series (ts : TimeSeries) (from : Time) :
  (forall q, In q (points ts) -> from <= fst q) ->
  sumFrom ts from = Reduce NanSum ts.
Proof.
  intros H. rewrite sumFrom_foldPoints.
  destruct (Reduce_foldPoints NanSum ts) as [_ ->].
  apply foldPoints_ext. intros q a Hq.
  assert (E : Before (fst q) from = false) by (apply Z.ltb_ge, H, Hq).
  rewrite E. reflexivity.
Qed.

Lemma sumFrom_of_whole_series_witness :
  sumFrom (LeafSeries 2 false (Some [(10%Z, 7); (20%Z, 1)])) 10%Z =
  Reduce NanSum (LeafSeries 2 false (Some [(10%Z, 7); (20%Z, 1)])).
Proof.
  apply (sumFrom_of_whole_series
           (LeafSeries 2 false (Some [(10%Z, 7); (20%Z, 1)])) 10%Z).
  intros q [<-|[<-|[]]]; vm_compute; discriminate.
Defined.

End WindowedSum.

(* ================================================================== *)
(** ** More on the verdicts of [CheckBurnRates] *)
(* ================================================================== *)

Section MoreVerdicts.

Local Open Scope float_scope.

Lemma div_nan_l (x : float) : nan / x = nan.
Proof.
  apply Prim2SF_inj. rewrite div_spec. reflexivity.
Qed.

Lemma div_nan_r (x : float) : x / nan = nan.
Proof.
  apply Prim2SF_inj. rewrite div_spec.
  change (Prim2SF nan) with S754_nan.
  destruct (Prim2SF x); reflexivity.
Qed.

Lemma nan_not_below (th : float) : (nan <? th) = false.
Proof.
  rewrite ltb_spec. reflexivity.
Qed.

(** A quotient that is not negative, divided by the zero objective, is not
    negative either. *)
Lemma div_zero_not_negative (q : float) :
  (q <? 0) = false -> (q / 0 <? 0) = false.
Proof.
  rewrite !ltb_spec, div_spec. unfold SFltb, SF64div.
  change (Prim2SF 0) with (S754_zero false).
  destruct (Prim2SF q) as [s|s| |s m e]; simpl; try reflexivity;
    destruct s; simpl; try reflexivity; discriminate.
Qed.

Variables (now : Time) (bad total : TimeSeries) (objective : float).

(** The severity the loop ends with is that of the first rule that is not
    skipped, and OK when every rule is skipped. *)
Lemma checkRules_severity (rules : list AlertRule) (first : BurnRate) :
  BSeverity (checkRules now bad total objective rules first) =
  match find (fun r => negb (skipped now bad total objective r)) rules with
  | Some r => Severity r
  | None => OK
  end.
Proof.
  revert first. induction rules as [|r rules IH]; intros first; [reflexivity|].
  rewrite checkRules_cons. cbn [find].
  destruct (skipped now bad total objective r); cbn [negb]; [apply IH | reflexivity].
Qed.

Lemma checkRules_window (rules : list AlertRule) (first : BurnRate) :
  Window first <> 0%Z ->
  Window (checkRules now bad total objective rules first) =
  match find (fun r => negb (skipped now bad total objective r)) rules with
  | Some r => LongWindow r
  | None => Window first
  end.
Proof.
  revert first. induction rules as [|r rules IH]; intros first Hw; [reflexivity|].
  rewrite checkRules_cons. cbn [find].
  destruct (skipped now bad total objective r); cbn [negb]; [|reflexivity].
  assert (E : recordFirst now bad total objective first r = first).
  { unfold recordFirst. destruct (Window first =? 0)%Z eqn:E; [lia | reflexivity]. }
  rewrite E. apply IH, Hw.
Qed.

Lemma find_some_split (f : AlertRule -> bool) (rules : list AlertRule) (r : AlertRule) :
  find f rules = Some r ->
  exists pre post,
    rules = pre ++ r :: post /\ f r = true /\ forall r', In r' pre -> f r' = false.
Proof.
  induction rules as [|r0 rules IH]; [discriminate|]. cbn [find].
  destruct (f r0) eqn:E.
  - intros H. inversion H; subst. exists [], rules. split; [reflexivity|].
    split; [exact E | intros r' []].
  - intros H. destruct (IH H) as (pre & post & -> & Hr & Hpre).
    exists (r0 :: pre), post. split; [reflexivity|]. split; [exact Hr|].
    intros r' [<-|Hr']; [exact E | apply Hpre, Hr'].
Qed.

End MoreVerdicts.

Section VerdictShape.

Local Open Scope float_scope.

Lemma AlertRules_severity_window (r : AlertRule) :
  In r AlertRules -> Severity r <> UNKNOWN /\ Severity r <> OK /\ LongWindow r <> 0%Z.
Proof.
  intros H. repeat (destruct H as [<-|H]; [repeat split; discriminate|]).
  destruct H.
Qed.

Lemma CheckBurnRates_two_outcomes_aux (now : Time) (bad total : TimeSeries)
  (objectivePercentage : float) :
  IsEmpty (Some bad) = false ->
  IsEmpty (Some total) = false ->
  BSeverity (CheckBurnRates now (Some bad) (Some total) objectivePercentage) <> UNKNOWN /\
  Window (CheckBurnRates now (Some bad) (Some total) objectivePercentage) <> 0%Z.
Proof.
  intros Hb Ht. unfold CheckBurnRates.
  rewrite (CheckBurnRatesWith_nonempty _ _ _ _ _ Hb Ht).
  set (objective := 1 - objectivePercentage / 100).
  destruct (find (fun r => negb (skipped now bad total objective r)) AlertRules)
    as [r|] eqn:E.
  - apply find_some_split in E as (pre & post & Hsplit & Hr & Hpre).
    apply negb_true_iff in Hr.
    assert (Hpre' : forall r', In r' pre -> skipped now bad total objective r' = true).
    { intros r' Hr'. apply negb_false_iff, Hpre, Hr'. }
    assert (Hin : In r AlertRules).
    { rewrite Hsplit. apply in_or_app. right. left. reflexivity. }
    assert (Hv : checkRules now bad total objective AlertRules zeroBurnRate =
                 verdict now bad total objective r).
    { rewrite Hsplit. apply checkRules_first_trip; assumption. }
    rewrite Hv. cbn [verdict Window BSeverity].
    destruct (AlertRules_severity_window r Hin) as (H1 & _ & H3). auto.
  - assert (Hall : forall r, In r AlertRules ->
                     skipped now bad total objective r = true).
    { intros r Hr. apply negb_false_iff. apply (find_none _ _ E r Hr). }
    unfold AlertRules.
    rewrite (checkRules_none now bad total objective _ _ Hall); [|discriminate].
    split; discriminate.
Qed.

End VerdictShape.

Section VerdictCases.

Local Open Scope float_scope.

(** For series that are not empty, [CheckBurnRates] has two outcomes only.
    Either every rule is skipped and the answer is the fallback, or the
    answer is the verdict of the first rule of the table that is not
    skipped; the value of such a verdict, the short-window ratio, is not
    below the threshold of its rule, and neither is the long-window
    ratio. *)
Theorem CheckBurnRates_two_outcomes (now : Time) (bad total : TimeSeries)
  (objectivePercentage objective : float) :
  objective = 1 - objectivePercentage / 100 ->
  IsEmpty (Some bad) = false ->
  IsEmpty (Some total) = false ->
  let v := CheckBurnRates now (Some bad) (Some total) objectivePercentage in
  ((forall r, In r AlertRules -> skipped now bad total objective r = true) /\
   BSeverity v = OK /\ Window v = Hour) \/
  (exists pre r post,
      AlertRules = pre ++ r :: post /\
      (forall r', In r' pre -> skipped now bad total objective r' = true) /\
      v = verdict now bad total objective r /\
      (BValue v <? BurnRateThreshold r) = false /\
      (longRatio now bad total objective r <? BurnRateThreshold r) = false).
Proof.
  intros -> Hb Ht v. unfold v, CheckBurnRates.
  rewrite (CheckBurnRatesWith_nonempty _ _ _ _ _ Hb Ht).
  set (objective := 1 - objectivePercentage / 100).
  destruct (find (fun r => negb (skipped now bad total objective r)) AlertRules)
    as [r|] eqn:E.
  - right. apply find_some_split in E as (pre & post & Hsplit & Hr & Hpre).
    apply negb_true_iff in Hr.
    assert (Hpre' : forall r', In r' pre -> skipped now bad total objective r' = true).
    { intros r' Hr'. apply negb_false_iff, Hpre, Hr'. }
    exists pre, r, post. split; [exact Hsplit|]. split; [exact Hpre'|].
    rewrite Hsplit, (checkRules_first_trip _ _ _ _ pre post r _ Hpre' Hr).
    unfold skipped in Hr. apply orb_false_iff in Hr as [Hl Hs].
    repeat split; assumption.
  - left. assert (Hall : forall r, In r AlertRules ->
                           skipped now bad total objective r = true).
    { intros r Hr. apply negb_false_iff. apply (find_none _ _ E r Hr). }
    split; [exact Hall|].
    unfold AlertRules.
    rewrite (checkRules_none now bad total objective _ _ Hall); [|discriminate].
    split; reflexivity.
Qed.

Lemma CheckBurnRates_two_outcomes_witness :
  let bad := LeafSeries 1 false (Some [(0%Z, 0)]) in
  let total := LeafSeries 1 false (Some [(0%Z, 1)]) in
  let objective := 1 - 99 / 100 in
  let v := CheckBurnRates 0%Z (Some bad) (Some total) 99 in
  ((forall r, In r AlertRules -> skipped 0%Z bad total objective r = true) /\
   BSeverity v = OK /\ Window v = Hour) \/
  (exists pre r post,
      AlertRules = pre ++ r :: post /\
      (forall r', In r' pre -> skipped 0%Z bad total objective r' = true) /\
      v = verdict 0%Z bad total objective r /\
      (BValue v <? BurnRateThreshold r) = false /\
      (longRatio 0%Z bad total objective r <? BurnRateThreshold r) = false).
Proof.
  intros bad total objective v.
  exact (CheckBurnRates_two_outcomes 0%Z bad total 99 objective
           eq_refl eq_refl eq_refl).
Defined.

(** The verdict is UNKNOWN exactly when one of the two series is empty,
    and this is also exactly when its window is zero. *)
Theorem CheckBurnRates_unknown_iff_empty (now : Time)
  (bad total : option TimeSeries) (objectivePercentage : float) :
  let v := CheckBurnRates now bad total objectivePercentage in
  (BSeverity v = UNKNOWN <-> IsEmpty bad = true \/ IsEmpty total = true) /\
  (Window v = 0%Z <-> IsEmpty bad = true \/ IsEmpty total = true).
Proof.
  intros v.
  destruct (IsEmpty bad || IsEmpty total) eqn:E.
  - apply orb_true_iff in E. unfold v, CheckBurnRates, CheckBurnRatesWith.
    assert (E' : IsEmpty bad || IsEmpty total = true) by (apply orb_true_iff, E).
    rewrite E'. cbn. tauto.
  - apply orb_false_iff in E as [Hb Ht].
    destruct bad as [b|]; [|discriminate]. destruct total as [t|]; [|discriminate].
    assert (Hsev : BSeverity v <> UNKNOWN /\ Window v <> 0%Z).
    { destruct (CheckBurnRates_two_outcomes_aux now b t objectivePercentage Hb Ht)
        as [Hs Hw]. split; [exact Hs | exact Hw]. }
    destruct Hsev as [Hs Hw]. rewrite Hb, Ht.
    split; split; intros H; try contradiction; destruct H; discriminate.
Qed.

End VerdictCases.

Section SeverityOrder.

Local Open Scope float_scope.

Ltac in_table := unfold AlertRules; cbn [In]; auto 8.

Ltac close_case :=
  cbn [Severity] in *;
  first [discriminate | congruence | reflexivity | assumption].

Ltac each_rule Hin :=
  unfold AlertRules in Hin; cbn [In] in Hin;
  repeat (destruct Hin as [<-|Hin]; [close_case|]); destruct Hin.

(* a rule of the table that is not skipped and has the severity asked for *)
Ltac pick_rule :=
  match goal with
  | E : skipped _ _ _ _ ?r = false |- _ =>
      exists r; split; [in_table | split; [reflexivity | exact E]]
  end.

(* a hypothesis on every rule of the table, used at one not skipped *)
Ltac refute_with H :=
  match goal with
  | E : skipped _ _ _ _ ?r = false |- _ =>
      let K := fresh in
      first [ assert (K := H r ltac:(in_table) eq_refl)
            | assert (K := H r ltac:(in_table)) ];
      congruence
  end.

(** The most severe rule that applies decides.  For series that are not
    empty the verdict is CRITICAL exactly when some CRITICAL rule is not
    skipped, WARNING exactly when every CRITICAL rule is skipped and some
    WARNING rule is not, and OK exactly when every rule is skipped. *)
Theorem CheckBurnRates_most_severe_first (now : Time) (bad total : TimeSeries)
  (objectivePercentage objective : float) :
  objective = 1 - objectivePercentage / 100 ->
  IsEmpty (Some bad) = false ->
  IsEmpty (Some total) = false ->
  let v := CheckBurnRates now (Some bad) (Some total) objectivePercentage in
  (BSeverity v = CRITICAL <->
   exists r, In r AlertRules /\ Severity r = CRITICAL /\
             skipped now bad total objective r = false) /\
  (BSeverity v = WARNING <->
   (forall r, In r AlertRules -> Severity r = CRITICAL ->
              skipped now bad total objective r = true) /\
   exists r, In r AlertRules /\ Severity r = WARNING /\
             skipped now bad total objective r = false) /\
  (BSeverity v = OK <->
   forall r, In r AlertRules -> skipped now bad total objective r = true).
Proof.
  intros -> Hb Ht v. unfold v, CheckBurnRates.
  rewrite (CheckBurnRatesWith_nonempty _ _ _ _ _ Hb Ht), checkRules_severity.
  set (objective := 1 - objectivePercentage / 100).
  unfold AlertRules at 1 3 6. cbn [find].
  repeat match goal with
    | |- context [negb (skipped ?a ?b ?c ?d ?r)] =>
        destruct (skipped a b c d r) eqn:?; cbn [negb]
    end;
  cbn [Severity].
  all: split; [|split].
  (* CRITICAL *)
  all: try (split;
            [ intros H; first [discriminate H | pick_rule]
            | intros (r & Hin & Hs & Hk); first [reflexivity | each_rule Hin] ];
            fail).
  (* WARNING *)
  all: try (split;
            [ intros H; first
                [ discriminate H
                | split; [intros r Hin Hs; each_rule Hin | pick_rule] ]
            | intros (Hc & r & Hin & Hs & Hk);
              first [reflexivity | refute_with Hc | each_rule Hin] ];
            fail).
  (* OK *)
  all: split;
       [ intros H; first [discriminate H | intros r Hin; each_rule Hin]
       | intros H; first [reflexivity | refute_with H] ].
Qed.

End SeverityOrder.

Lemma CheckBurnRates_most_severe_first_witness :
  let s := LeafSeries 1 false (Some [(0, 1%float)]) in
  BSeverity (CheckBurnRates 0 (Some s) (Some s) 99) = CRITICAL.
Proof.
  intros s.
  apply (proj1 (CheckBurnRates_most_severe_first 0 s s 99 (1 - 99 / 100)%float
                  eq_refl eq_refl eq_refl)).
  exists {| LongWindow := Hour; ShortWindow := 5 * Minute;
            BurnRateThreshold := 0x1.ccccccccccccdp+3; Severity := CRITICAL |}.
  split; [left; reflexivity|]. split; [reflexivity|].
  vm_compute. reflexivity.
Defined.

(* ================================================================== *)
(** ** Verdicts on data that says nothing *)
(* ================================================================== *)

Section SilentData.

Local Open Scope float_scope.

Lemma wrap64_small (z : Z) :
  (- 2 ^ 63 <= z < 2 ^ 63)%Z -> wrap64 z = z.
Proof.
  intros H. unfold wrap64. rewrite Z.mod_small; lia.
Qed.

Lemma Add_neg (now : Time) (d : Duration) :
  (0 <= d < 2 ^ 63)%Z -> (- 2 ^ 63 + d <= now < 2 ^ 63)%Z ->
  Add now (neg d) = (now - d)%Z.
Proof.
  intros Hd Hnow. unfold Add, neg.
  rewrite (wrap64_small (- d)) by lia. rewrite wrap64_small by lia. lia.
Qed.

(** The first rule trips when both of its ratios are NaN. *)
Lemma first_rule_trips_on_nan (now : Time) (bad total : TimeSeries)
  (objectivePercentage : float) (r1 : AlertRule) (rules : list AlertRule) :
  IsEmpty (Some bad) = false ->
  IsEmpty (Some total) = false ->
  AlertRules = r1 :: rules ->
  longRatio now bad total (1 - objectivePercentage / 100) r1 = nan ->
  shortRatio now bad total (1 - objectivePercentage / 100) r1 = nan ->
  CheckBurnRates now (Some bad) (Some total) objectivePercentage =
  {| BValue := NaN; Window := LongWindow r1; BSeverity := Severity r1 |}.
Proof.
  intros Hb Ht Hrules Hl Hs. unfold CheckBurnRates.
  rewrite (CheckBurnRatesWith_nonempty _ _ _ _ _ Hb Ht), Hrules.
  rewrite checkRules_cons. unfold skipped. rewrite Hl, Hs, nan_not_below.
  cbn [orb]. unfold verdict. rewrite Hs. reflexivity.
Qed.

(** A series that is not empty for [IsEmpty] may still yield no point, as
    an aggregation of empty aggregations does.  When the bad or the total
    series yields no point, the verdict is not UNKNOWN: both ratios of the
    first rule are NaN and the verdict is CRITICAL on the one-hour window,
    with a NaN value. *)
Theorem CheckBurnRates_no_point_is_critical (now : Time) (bad total : TimeSeries)
  (objectivePercentage : float) :
  IsEmpty (Some bad) = false ->
  IsEmpty (Some total) = false ->
  points bad = [] \/ points total = [] ->
  CheckBurnRates now (Some bad) (Some total) objectivePercentage =
  {| BValue := NaN; Window := Hour; BSeverity := CRITICAL |}.
Proof.
  intros Hb Ht Hp.
  assert (Hnan : forall from,
             burnRate bad total (1 - objectivePercentage / 100) from = nan).
  { intros from. unfold burnRate. rewrite !sumFrom_foldPoints.
    destruct Hp as [-> | ->]; cbn [foldPoints fold_left]; unfold NaN.
    - rewrite !div_nan_l. reflexivity.
    - rewrite div_nan_r, div_nan_l. reflexivity. }
  apply (first_rule_trips_on_nan now bad total objectivePercentage _ _ Hb Ht eq_refl);
    apply Hnan.
Qed.

Lemma CheckBurnRates_no_point_is_critical_witness :
  let bad := AggregatedTimeseries [Some (AggregatedTimeseries [] NanSum)] NanSum in
  let total := LeafSeries 1 false (Some [(0%Z, 1)]) in
  CheckBurnRates 0%Z (Some bad) (Some total) 99 =
  {| BValue := NaN; Window := Hour; BSeverity := CRITICAL |}.
Proof.
  intros bad total.
  apply (CheckBurnRates_no_point_is_critical 0%Z bad total 99).
  - reflexivity.
  - reflexivity.
  - left. vm_compute. reflexivity.
Defined.

Lemma sumFrom_all_old (ts : TimeSeries) (from : Time) :
  points ts <> [] ->
  (forall p, In p (points ts) -> (fst p < from)%Z) ->
  sumFrom ts from = 0.
Proof.
  intros Hne Hold. destruct (exists_last Hne) as (pre & p & Hpts).
  rewrite (sumFrom_restarts_at_old_point_aux ts from pre [] p Hpts).
  - reflexivity.
  - apply Hold. rewrite Hpts. apply in_or_app. right. left. reflexivity.
  - intros q [].
Qed.

(** Data that stops more than an hour before [now]: when both series
    yield points and all of them are older than [now] minus one hour, both
    sums of both windows of the first rule are zero, the ratios are NaN, and
    the verdict is CRITICAL on the one-hour window with a NaN value. *)
Theorem CheckBurnRates_old_data_is_critical (now : Time) (bad total : TimeSeries)
  (objectivePercentage : float) :
  IsEmpty (Some bad) = false ->
  IsEmpty (Some total) = false ->
  (- 2 ^ 63 + Hour <= now < 2 ^ 63)%Z ->
  points bad <> [] -> points total <> [] ->
  (forall p, In p (points bad ++ points total) -> (fst p < now - Hour)%Z) ->
  CheckBurnRates now (Some bad) (Some total) objectivePercentage =
  {| BValue := NaN; Window := Hour; BSeverity := CRITICAL |}.
Proof.
  intros Hb Ht Hnow Hnb Hnt Hold.
  assert (Hnan : forall d, (0 <= d <= Hour)%Z ->
             burnRate bad total (1 - objectivePercentage / 100)
               (Add now (neg d)) = nan).
  { intros d Hd. unfold Hour, Minute in *.
    rewrite Add_neg by lia. unfold burnRate.
    rewrite !sumFrom_all_old; try assumption.
    - change (0 / 0) with nan. apply div_nan_l.
    - intros p Hp. assert (H := Hold p (in_or_app _ _ p (or_intror Hp))). lia.
    - intros p Hp. assert (H := Hold p (in_or_app _ _ p (or_introl Hp))). lia. }
  apply (first_rule_trips_on_nan now bad total objectivePercentage _ _ Hb Ht eq_refl);
    apply Hnan; unfold Hour, Minute; cbn; lia.
Qed.

Lemma CheckBurnRates_old_data_is_critical_witness :
  let bad := LeafSeries 1 false (Some [(0%Z, 0)]) in
  let total := LeafSeries 1 false (Some [(0%Z, 100)]) in
  CheckBurnRates 7200%Z (Some bad) (Some total) 99 =
  {| BValue := NaN; Window := Hour; BSeverity := CRITICAL |}.
Proof.
  intros bad total.
  apply (CheckBurnRates_old_data_is_critical 7200%Z bad total 99).
  - reflexivity.
  - reflexivity.
  - unfold Hour, Minute. lia.
  - vm_compute. discriminate.
  - vm_compute. discriminate.
  - intros p [<-|[<-|[]]]; vm_compute; reflexivity.
Defined.

(** An objective of 100 percent leaves no budget: the allowed fraction is
    zero, every ratio is NaN or an infinity, and for series that are not
    empty the first rule trips as soon as the failure fractions of its two
    windows are not negative, even when no event failed. *)
Theorem CheckBurnRates_full_objective_is_critical (now : Time)
  (bad total : TimeSeries) :
  IsEmpty (Some bad) = false ->
  IsEmpty (Some total) = false ->
  (sumFrom bad (Add now (neg Hour)) / sumFrom total (Add now (neg Hour)) <? 0) = false ->
  (sumFrom bad (Add now (neg (5 * Minute)%Z)) /
   sumFrom total (Add now (neg (5 * Minute)%Z)) <? 0) = false ->
  let v := CheckBurnRates now (Some bad) (Some total) 100 in
  BSeverity v = CRITICAL /\ Window v = Hour /\ nanOrInf (BValue v) = true.
Proof.
  intros Hb Ht Hl Hs v.
  assert (Hwin : forall q th, (q <? 0) = false ->
             nanOrInf (q / (1 - 100 / 100)) = true /\
             (q / (1 - 100 / 100) <? th) = false).
  { intros q th Hq. change (1 - 100 / 100) with 0.
    assert (Hn : nanOrInf (q / 0) = true) by (apply div_zero_nanOrInf; reflexivity).
    split; [exact Hn|].
    apply nanOrInf_not_below; [exact Hn | apply div_zero_not_negative, Hq]. }
  unfold v, CheckBurnRates.
  rewrite (CheckBurnRatesWith_nonempty _ _ _ _ _ Hb Ht).
  unfold AlertRules. rewrite checkRules_cons.
  unfold skipped, longRatio, shortRatio, burnRate. cbn [LongWindow ShortWindow BurnRateThreshold].
  rewrite (proj2 (Hwin _ _ Hl)), (proj2 (Hwin _ _ Hs)). cbn [orb].
  unfold verdict, shortRatio, burnRate. cbn [BSeverity Window BValue Severity LongWindow ShortWindow].
  repeat split. apply (Hwin _ 0 Hs).
Qed.

Lemma CheckBurnRates_full_objective_is_critical_witness :
  let bad := LeafSeries 1 false (Some [(0%Z, 0)]) in
  let total := LeafSeries 1 false (Some [(0%Z, 100)]) in
  BSeverity (CheckBurnRates 0%Z (Some bad) (Some total) 100) = CRITICAL.
Proof.
  intros bad total.
  apply (CheckBurnRates_full_objective_is_critical 0%Z bad total).
  - reflexivity.
  - reflexivity.
  - vm_compute. reflexivity.
  - vm_compute. reflexivity.
Defined.

End SilentData.

(* ================================================================== *)
(** ** Printing a value *)
(* ================================================================== *)

Section Printing.

Local Open Scope float_scope.

Variable Sprintf : nat -> float -> String.string.

Lemma is_nan_false (v : float) : Prim2SF v <> S754_nan -> is_nan v = false.
Proof.
  intros H. destruct (is_nan v) eqn:E; [|reflexivity].
  apply is_nan_SF in E. contradiction.
Qed.

(** [FormatFloat] prints a missing value as the empty string and both
    zeros as "0"; a negative value, whatever its size, falls through every
    threshold and is printed with three decimals, while a value of one or
    more is printed with none. *)
Theorem FormatFloat_edges (v : float) :
  (is_nan v = true -> FormatFloat Sprintf v = String.EmptyString) /\
  ((v =? 0) = true ->
   FormatFloat Sprintf v = String.String "0" String.EmptyString) /\
  ((v <? 0) = true -> FormatFloat Sprintf v = Sprintf 3%nat v) /\
  ((1 <=? v) = true -> FormatFloat Sprintf v = Sprintf 0%nat v).
Proof.
  unfold FormatFloat. repeat split.
  - intros ->. reflexivity.
  - intros H. rewrite is_nan_false, H; [reflexivity|].
    intros E. rewrite eqb_spec, E in H. discriminate.
  - intros H.
    rewrite is_nan_false by (intros E; rewrite ltb_spec, E in H; discriminate).
    rewrite eqb_spec, !leb_spec. rewrite ltb_spec in H.
    destruct (Prim2SF v) as [s|s| |s m e]; try discriminate;
      destruct s; try discriminate; reflexivity.
  - intros H.
    rewrite is_nan_false by (intros E; rewrite leb_spec, E in H; discriminate).
    rewrite H. rewrite eqb_spec. rewrite leb_spec in H.
    destruct (Prim2SF v) as [s|s| |s m e]; try discriminate;
      destruct s; try discriminate; reflexivity.
Qed.

End Printing.
